(** * DRAVIS front end (app.js): a shallow embedding and its properties

    The program is a browser script: a global [state] object, a handful of
    DOM elements it reads and writes, and [async] functions that talk to a
    backend through [fetch].  The embedding keeps that shape:

    - JavaScript strings are sequences of UTF-16 code units ([list N]);
    - values that come out of [JSON.parse] are the inductive [jsval];
    - the script's mutable surroundings (the [state] object, the DOM
      elements it touches, the calls it makes to [fetch], [alert], ...)
      are one record [world], threaded through a small state-and-exception
      monad;
    - an [async] function is cut at its [await]: the part that runs when the
      function is called, and the part that runs when the request settles. *)

From stdpp Require Import base option list gmap strings.
From Stdlib Require Import ZArith NArith Lia.

Local Open Scope N_scope.
Local Set Warnings "-register-all".

(** ** Strings *)

(** A JavaScript string: UTF-16 code units. *)
Definition jstring := list N.

(** An ASCII literal of the source, as code units. *)
Definition js (s : string) : jstring :=
  map Ascii.N_of_ascii (String.list_ascii_of_string s).
Arguments js : simpl never.

Definition c_nl : N := 10.
Definition c_cr : N := 13.
Definition c_space : N := 32.
Definition c_amp : N := 38.
Definition c_star : N := 42.
Definition c_dash : N := 45.
Definition c_lt : N := 60.
Definition c_gt : N := 62.
Definition c_tick : N := 96.
Definition c_nbsp : N := 160.
Definition c_ls : N := 8232.   (* U+2028 line separator *)
Definition c_ps : N := 8233.   (* U+2029 paragraph separator *)

(** ECMAScript LineTerminator: what [.] refuses and what [^] and [$] look
    for under the [m] flag. *)
Definition line_terminator (c : N) : bool :=
  (c =? c_nl) || (c =? c_cr) || (c =? c_ls) || (c =? c_ps).

(** ECMAScript WhiteSpace and LineTerminator, the code units
    [String.prototype.trim] removes. *)
Definition trim_space (c : N) : bool :=
  (c =? 9) || (c =? 10) || (c =? 11) || (c =? 12) || (c =? 13) || (c =? 32)
  || (c =? 160) || (c =? 5760) || ((8192 <=? c) && (c <=? 8202))
  || (c =? 8232) || (c =? 8233) || (c =? 8239) || (c =? 8287)
  || (c =? 12288) || (c =? 65279).

Fixpoint trim_start (s : jstring) : jstring :=
  match s with
  | c :: s' => if trim_space c then trim_start s' else s
  | [] => []
  end.

(** [String.prototype.trim]. *)
Definition trim (s : jstring) : jstring :=
  rev (trim_start (rev (trim_start s))).

(** ** Values *)

(** What [JSON.parse] can produce, and [undefined] for the property reads
    that find nothing.  Only the test against zero is ever made on a
    number, so integers stand for the doubles. *)
Inductive jsval : Type :=
  | JUndefined
  | JNull
  | JBool (b : bool)
  | JNum (n : Z)
  | JStr (s : jstring)
  | JArr (items : list jsval)
  | JObj (fields : list (jstring * jsval)).

(** ToBoolean. *)
Definition truthy (v : jsval) : bool :=
  match v with
  | JUndefined | JNull => false
  | JBool b => b
  | JNum n => negb (n =? 0)%Z
  | JStr s => match s with [] => false | _ => true end
  | JArr _ | JObj _ => true
  end.

(** [a || b] *)
Definition js_or (a b : jsval) : jsval := if truthy a then a else b.

(** The own property [k] of a parsed object; a repeated key keeps its last
    value. *)
Fixpoint own_prop (fields : list (jstring * jsval)) (k : jstring) : option jsval :=
  match fields with
  | [] => None
  | (k', v) :: rest =>
      match own_prop rest k with
      | Some v' => Some v'
      | None => if decide (k' = k) then Some v else None
      end
  end.

(** What the program can throw or be rejected with. *)
Inductive exn : Type :=
  | JsError (message : jsval)     (* [throw new Error(message)] *)
  | Rejection (message : jstring) (* a promise of the browser rejected *)
  | TypeErr.                      (* raised by the engine itself *)

Inductive result (A : Type) : Type :=
  | Ok (a : A)
  | Throw (e : exn).
Arguments Ok {A} a.
Arguments Throw {A} e.

(** [v.k], for the property names this program reads ([detail],
    [conversation_id], [response], [model], [filename], ...): none of them
    lives on a prototype, so only own properties of objects answer;
    reading from [null] or [undefined] is a TypeError. *)
Definition get_prop (v : jsval) (k : jstring) : result jsval :=
  match v with
  | JUndefined | JNull => Throw TypeErr
  | JObj fields => Ok (default JUndefined (own_prop fields k))
  | _ => Ok JUndefined
  end.

(** Does ToString succeed on the value?  A parsed object with an own
    [toString] entry has nothing callable left to convert it (its
    [valueOf] answers the object itself), and an array joins the
    conversions of its items. *)
Fixpoint stringifiable (v : jsval) : bool :=
  match v with
  | JObj fields =>
      negb (existsb (fun kv => bool_decide (kv.1 = js "toString")) fields)
  | JArr items => forallb stringifiable items
  | _ => true
  end.

(** ** Text renderer: [escapeHtml] and [formatMessageText] *)

Module Render.

(** What serialising a text node does to one code unit: [div.textContent =
    str] makes a single text node and [div.innerHTML] writes it back with
    these four replacements. *)
Definition escape_unit (c : N) : jstring :=
  if c =? c_amp then js "&amp;"
  else if c =? c_nbsp then js "&nbsp;"
  else if c =? c_lt then js "&lt;"
  else if c =? c_gt then js "&gt;"
  else [c].

Definition escapeHtml (str : jstring) : jstring :=
  flat_map escape_unit str.

(** [p] in front of [s]: what follows it. *)
Fixpoint strip_prefix (p s : jstring) : option jstring :=
  match p, s with
  | [], _ => Some s
  | a :: p', b :: s' => if a =? b then strip_prefix p' s' else None
  | _ :: _, [] => None
  end.

(** A lazy run of [x] followed by [delim], tried at the head of [s], [x]
    being a class of code units: the shortest run of [x] after which
    [delim] stands, and what follows [delim]. *)
Fixpoint lazy_until (delim : jstring) (x : N -> bool) (s : jstring)
  : option (jstring * jstring) :=
  match strip_prefix delim s with
  | Some rest => Some ([], rest)
  | None =>
      match s with
      | c :: s' =>
          if x c then
            match lazy_until delim x s' with
            | Some (cap, rest) => Some (c :: cap, rest)
            | None => None
            end
          else None
      | [] => None
      end
  end.

(** A greedy run of [x] tried at the head of [s]: the longest run, and the
    rest. *)
Fixpoint span (x : N -> bool) (s : jstring) : jstring * jstring :=
  match s with
  | c :: s' =>
      if x c then let '(run, rest) := span x s' in (c :: run, rest)
      else ([], s)
  | [] => ([], [])
  end.

(** [.] without the [s] flag. *)
Definition dot (c : N) : bool := negb (line_terminator c).
(** [[\s\S]] *)
Definition any (c : N) : bool := true.
(** [[^`]] *)
Definition not_tick (c : N) : bool := negb (c =? c_tick).

(** A pattern with its replacement, tried at one position: [prev] is the
    code unit in front of that position (none at the start of the input),
    [s] the input from there on.  A match answers the text that replaces it
    and the input after it. *)
Definition matcher := option N -> jstring -> option (jstring * jstring).

(** [/\*\*(.*?)\*\*/] with ["<b>$1</b>"] *)
Definition bold : matcher := fun _ s =>
  s1 ← strip_prefix (js "**") s;
  '(cap, rest) ← lazy_until (js "**") dot s1;
  Some (js "<b>" ++ cap ++ js "</b>", rest).

(** [/\*(.*?)\*/] with ["<i>$1</i>"] *)
Definition italic : matcher := fun _ s =>
  s1 ← strip_prefix (js "*") s;
  '(cap, rest) ← lazy_until (js "*") dot s1;
  Some (js "<i>" ++ cap ++ js "</i>", rest).

(** [/```([\s\S]*?)```/] with ["<pre><code>$1</code></pre>"] *)
Definition fence : matcher := fun _ s =>
  s1 ← strip_prefix (js "```") s;
  '(cap, rest) ← lazy_until (js "```") any s1;
  Some (js "<pre><code>" ++ cap ++ js "</code></pre>", rest).

(** [/`([^`]+)`/] with ["<code>$1</code>"]: the greedy run stops only at a
    backquote or at the end, so giving back units never helps. *)
Definition code : matcher := fun _ s =>
  s1 ← strip_prefix (js "`") s;
  let '(cap, s2) := span not_tick s1 in
  match cap with
  | [] => None
  | _ :: _ =>
      rest ← strip_prefix (js "`") s2;
      Some (js "<code>" ++ cap ++ js "</code>", rest)
  end.

(** [^] under the [m] flag. *)
Definition at_line_start (prev : option N) : bool :=
  match prev with
  | None => true
  | Some c => line_terminator c
  end.

Definition bullet_glyph : N := 8226.   (* U+2022 *)

(** The list-marker pattern (a dash and a space behind [^], a captured
    greedy [.*], then [$], under the [m] flag) with the bullet glyph, a
    space and [$1]: the greedy run goes to the end of the line, where [$]
    holds. *)
Definition bullet : matcher := fun prev s =>
  if at_line_start prev then
    s1 ← strip_prefix (js "- ") s;
    let '(cap, rest) := span dot s1 in
    Some (bullet_glyph :: c_space :: cap, rest)
  else None.

(** [/\n\n/] with ["<br><br>"] *)
Definition blank_line : matcher := fun _ s =>
  rest ← strip_prefix [c_nl; c_nl] s;
  Some (js "<br><br>", rest).

(** [/\n/] with ["<br>"] *)
Definition line_break : matcher := fun _ s =>
  rest ← strip_prefix [c_nl] s;
  Some (js "<br>", rest).

(** The code unit in front of [rest], [rest] being what a match at the head
    of [s] left over. *)
Definition last_consumed (s rest : jstring) : option N :=
  last (take (length s - length rest) s).

(** [String.prototype.replace] with a [g] pattern, from one position on:
    try the pattern here; a match is replaced and the scan goes on behind
    it, otherwise the unit is kept and the scan moves one unit.  (No
    pattern of this program matches the empty string.)  [fuel] bounds the
    number of positions visited. *)
Fixpoint replace_from (fuel : nat) (m : matcher) (prev : option N) (s : jstring)
  : jstring :=
  match fuel with
  | O => s
  | S fuel' =>
      match s with
      | [] => []
      | c :: s' =>
          match m prev s with
          | Some (out, rest) =>
              out ++ replace_from fuel' m (last_consumed s rest) rest
          | None => c :: replace_from fuel' m (Some c) s'
          end
      end
  end.

(** [s.replace(/.../g, ...)]: one position per code unit is enough. *)
Definition replace (m : matcher) (s : jstring) : jstring :=
  replace_from (length s) m None s.

(** [formatMessageText], on a string argument. *)
Definition formatMessageText (text : jstring) : jstring :=
  match text with
  | [] => []
  | _ :: _ =>
      let html := escapeHtml text in
      let html := replace bold html in
      let html := replace italic html in
      let html := replace fence html in
      let html := replace code html in
      let html := replace bullet html in
      let html := replace blank_line html in
      let html := replace line_break html in
      html
  end.

(** The tags the substitutions write. *)
Definition tags : list jstring :=
  [js "<b>"; js "</b>"; js "<i>"; js "</i>"; js "<pre>"; js "</pre>";
   js "<code>"; js "</code>"; js "<br>"].

(** Markup in which every angle bracket belongs to one of those tags. *)
Inductive tagged : jstring -> Prop :=
  | tagged_nil : tagged []
  | tagged_text c s : c <> c_lt -> c <> c_gt -> tagged s -> tagged (c :: s)
  | tagged_tag t s : t ∈ tags -> tagged s -> tagged (t ++ s).

(** A code unit that occurs in some tag. *)
Definition tag_unit (c : N) : bool :=
  existsb (existsb (N.eqb c)) tags.

(** A non-empty run of units that are in no tag. *)
Definition foreign (ds : jstring) : bool :=
  match ds with
  | [] => false
  | _ :: _ => forallb (fun d => negb (tag_unit d)) ds
  end.

(** A pattern that never starts inside a tag and whose matches keep
    markup well tagged. *)
Definition tag_safe (m : matcher) : Prop :=
  (forall prev c s, tag_unit c = true -> m prev (c :: s) = None) /\
  (forall prev s out rest,
      tagged s -> m prev s = Some (out, rest) -> tagged out /\ tagged rest).

(** The scan that [replace] computes, as a relation: it holds of the whole
    input, whatever its length. *)
Inductive scan (m : matcher) : option N -> jstring -> jstring -> Prop :=
  | scan_end prev : scan m prev [] []
  | scan_hit prev c s out rest out' :
      m prev (c :: s) = Some (out, rest) ->
      scan m (last_consumed (c :: s) rest) rest out' ->
      scan m prev (c :: s) (out ++ out')
  | scan_miss prev c s out' :
      m prev (c :: s) = None ->
      scan m (Some c) s out' ->
      scan m prev (c :: s) (c :: out').

(** A pattern whose matches take at least one code unit off the input. *)
Definition consuming (m : matcher) : Prop :=
  forall prev s out rest,
    m prev s = Some (out, rest) -> (length rest < length s)%nat.

End Render.

(** ** The script's surroundings *)

Inductive role : Type := User | Assistant.

(** A child of [#messagesContainer]: the "Start a conversation" block that
    carries [data-placeholder="true"], or a [div.message] made by
    [addMessageToUI].  A message keeps the role and the text it was made
    from; its class is ["message user"] or ["message assistant"] and its
    bubble holds [formatMessageText] of the text. *)
Record message : Type := { msg_role : role; msg_text : jsval }.

Inductive node : Type :=
  | Placeholder
  | Bubble (m : message).

(** A call to [fetch]: the route and what is sent.  Where the URL embeds a
    value through a template literal the value is kept as it is. *)
Inductive request : Type :=
  | GetRoot                                               (* GET / *)
  | PostChat (message : jstring) (conversation_id : jsval) (* POST /chat *)
  | DeleteDoc (doc_id : jstring)          (* DELETE /documents/<doc_id> *)
  | PostExport (conversation_id : jsval). (* POST /chat/<id>/export *)

(** An [alert]: a fixed text, or a fixed text followed by [e.message]. *)
Inductive alert_text : Type :=
  | Plain (s : jstring)
  | WithCause (s : jstring) (e : exn).

(** A file handed to the user by [a.click()]: [conversation_<id>.md] and
    the body it was made from. *)
Record download : Type := { file_id : jsval; file_body : jstring }.

(** What [#documentsList] shows. *)
Inductive docs_view : Type :=
  | Untouched                              (* as the page or [loadDocuments] left it *)
  | NoDocuments                            (* "No documents uploaded yet" *)
  | Listing (docs : gmap jstring jsval).   (* one item per entry *)

Record world : Type := {
  (* the [state] object *)
  currentConversationId : jsval;
  documents : gmap jstring jsval;
  (* the elements [getElementById] is asked for; [None] when absent *)
  chatInput : option jstring;               (* its [value] *)
  messagesContainer : option (list node);   (* its children *)
  backendStatus : option jsval;             (* value given to [textContent] *)
  ragStatus : option jsval;
  modelStatus : option jsval;
  documentsList : option docs_view;
  (* what the script has asked of the browser, oldest first *)
  requests : list request;
  alerts : list alert_text;
  downloads : list download;
  console : list (jstring * exn);
}.

(** The response a [fetch] promise resolves to: its status, and what
    [res.json()] and [res.blob()] settle to. *)
Record response : Type := {
  status : Z;
  json : result jsval;
  blob : result jstring;
}.

(** [res.ok] *)
Definition ok (res : response) : bool :=
  (200 <=? status res)%Z && (status res <=? 299)%Z.

(** How the promise of a [fetch] settles. *)
Definition fetch_outcome := result response.

(** ** State and exceptions *)

Definition M (A : Type) : Type := world -> result A * world.

#[global] Instance M_ret : MRet M := fun A a w => (Ok a, w).
#[global] Instance M_bind : MBind M := fun A B f m w =>
  match m w with
  | (Ok a, w') => f a w'
  | (Throw e, w') => (Throw e, w')
  end.

Definition throw {A} (e : exn) : M A := fun w => (Throw e, w).

(** [try { body } catch (e) { handler }] *)
Definition try_catch {A} (body : M A) (handler : exn -> M A) : M A := fun w =>
  match body w with
  | (Ok a, w') => (Ok a, w')
  | (Throw e, w') => handler e w'
  end.

Definition lift {A} (r : result A) : M A := fun w => (r, w).
Definition get : M world := fun w => (Ok w, w).
Definition modify (f : world -> world) : M unit := fun w => (Ok tt, f w).
Definition when (b : bool) (m : M unit) : M unit := if b then m else mret tt.

(** An [async] function that has been called: returned, or parked at the
    [await] of the request it has just issued. *)
Inductive progress : Type := Done | Awaiting.

Definition set_currentConversationId (v : jsval) (w : world) : world :=
  {| currentConversationId := v; documents := documents w;
     chatInput := chatInput w; messagesContainer := messagesContainer w;
     backendStatus := backendStatus w; ragStatus := ragStatus w;
     modelStatus := modelStatus w; documentsList := documentsList w;
     requests := requests w; alerts := alerts w; downloads := downloads w;
     console := console w |}.

Definition set_documents (d : gmap jstring jsval) (w : world) : world :=
  {| currentConversationId := currentConversationId w; documents := d;
     chatInput := chatInput w; messagesContainer := messagesContainer w;
     backendStatus := backendStatus w; ragStatus := ragStatus w;
     modelStatus := modelStatus w; documentsList := documentsList w;
     requests := requests w; alerts := alerts w; downloads := downloads w;
     console := console w |}.

Definition set_chatInput (v : option jstring) (w : world) : world :=
  {| currentConversationId := currentConversationId w; documents := documents w;
     chatInput := v; messagesContainer := messagesContainer w;
     backendStatus := backendStatus w; ragStatus := ragStatus w;
     modelStatus := modelStatus w; documentsList := documentsList w;
     requests := requests w; alerts := alerts w; downloads := downloads w;
     console := console w |}.

Definition set_messagesContainer (c : option (list node)) (w : world) : world :=
  {| currentConversationId := currentConversationId w; documents := documents w;
     chatInput := chatInput w; messagesContainer := c;
     backendStatus := backendStatus w; ragStatus := ragStatus w;
     modelStatus := modelStatus w; documentsList := documentsList w;
     requests := requests w; alerts := alerts w; downloads := downloads w;
     console := console w |}.

Definition set_status (b r m : option jsval) (w : world) : world :=
  {| currentConversationId := currentConversationId w; documents := documents w;
     chatInput := chatInput w; messagesContainer := messagesContainer w;
     backendStatus := b; ragStatus := r; modelStatus := m;
     documentsList := documentsList w;
     requests := requests w; alerts := alerts w; downloads := downloads w;
     console := console w |}.

Definition set_documentsList (v : option docs_view) (w : world) : world :=
  {| currentConversationId := currentConversationId w; documents := documents w;
     chatInput := chatInput w; messagesContainer := messagesContainer w;
     backendStatus := backendStatus w; ragStatus := ragStatus w;
     modelStatus := modelStatus w; documentsList := v;
     requests := requests w; alerts := alerts w; downloads := downloads w;
     console := console w |}.

Definition set_effects (rq : list request) (al : list alert_text)
    (dl : list download) (co : list (jstring * exn)) (w : world) : world :=
  {| currentConversationId := currentConversationId w; documents := documents w;
     chatInput := chatInput w; messagesContainer := messagesContainer w;
     backendStatus := backendStatus w; ragStatus := ragStatus w;
     modelStatus := modelStatus w; documentsList := documentsList w;
     requests := rq; alerts := al; downloads := dl; console := co |}.

(** [fetch(...)]: the request leaves. *)
Definition fetch (r : request) : M unit :=
  modify (fun w => set_effects (requests w ++ [r]) (alerts w) (downloads w) (console w) w).

(** [alert(...)] *)
Definition alert (a : alert_text) : M unit :=
  modify (fun w => set_effects (requests w) (alerts w ++ [a]) (downloads w) (console w) w).

(** [console.error(label, e)] *)
Definition console_error (label : jstring) (e : exn) : M unit :=
  modify (fun w => set_effects (requests w) (alerts w) (downloads w) (console w ++ [(label, e)]) w).

(** [a.click()] on the link built for the export. *)
Definition deliver (d : download) : M unit :=
  modify (fun w => set_effects (requests w) (alerts w) (downloads w ++ [d]) (console w) w).

(** A template literal or a text slot converts the value to a string; the
    conversion can throw. *)
Definition to_text (v : jsval) : M jsval :=
  if stringifiable v then mret v else throw TypeErr.

(** ** Chat *)

(** Does [formatMessageText(text)] return?  A falsy text answers [""] at
    once; anything else goes through [escapeHtml], whose [textContent]
    slot converts it to a string. *)
Definition renders (text : jsval) : bool :=
  negb (truthy text) || stringifiable text.

(** The children of the container once a lone placeholder is cleared
    ([container.innerHTML = ""]). *)
Definition cleared (children : list node) : list node :=
  match children with
  | [Placeholder] => []
  | _ => children
  end.

(** [addMessageToUI(role, text)] *)
Definition addMessageToUI (r : role) (text : jsval) : M unit :=
  w ← get;
  match messagesContainer w with
  | None => mret tt
  | Some children =>
      let children := cleared children in
      modify (set_messagesContainer (Some children));;
      (* the bubble is built before the wrapper is appended *)
      (if renders text then mret tt else throw TypeErr);;
      modify (set_messagesContainer
                (Some (children ++ [Bubble {| msg_role := r; msg_text := text |}])))
  end.

(** [newConversation] *)
Definition newConversation : M unit :=
  modify (set_currentConversationId JNull);;
  w ← get;
  match messagesContainer w with
  | None => mret tt
  | Some _ => modify (set_messagesContainer (Some [Placeholder]))
  end.

(** The text of the message shown when the chat request fails. *)
Definition failure_text : jstring :=
  [9888; 65039] ++ js " Failed to reach LangChain backend.<br><br>"
  ++ js "Make sure it's running:<br><code>python langchain_backend.py</code>".

Definition empty_response : jstring := js "(empty response)".

(** [await p]: the value of a fulfilled promise, or its rejection thrown. *)
Definition await {A} (p : result A) : M A := lift p.

(** [await res.json().catch(() => ({}))] *)
Definition json_or_empty (res : response) : jsval :=
  match json res with
  | Ok v => v
  | Throw _ => JObj []
  end.

(** [sendMessage], from the call to the [await] of [fetch]. *)
Definition sendMessage_begin : M progress :=
  w ← get;
  match chatInput w with
  | None => mret Done
  | Some value =>
      let message := trim value in
      match message with
      | [] => mret Done
      | _ :: _ =>
          modify (set_chatInput (Some []));;
          addMessageToUI User (JStr message);;
          w ← get;
          fetch (PostChat message (js_or (currentConversationId w) JNull));;
          mret Awaiting
      end
  end.

(** The [catch] block of [sendMessage]. *)
Definition sendMessage_catch (e : exn) : M unit :=
  console_error (js "Chat error:") e;;
  addMessageToUI Assistant (JStr failure_text).

(** [sendMessage], from the moment the [fetch] promise settles.  Nothing
    of the surroundings is read or written between the two [await]s of
    the source, so they are taken in one go. *)
Definition sendMessage_resume (o : fetch_outcome) : M unit :=
  try_catch
    (res ← await o;
     let data := json_or_empty res in
     if negb (ok res) then
       detail ← (if truthy data
                 then d ← lift (get_prop data (js "detail"));
                      mret (js_or d (JStr (js "Chat request failed")))
                 else mret (JStr (js "Chat request failed")));
       detail ← to_text detail;
       throw (JsError detail)
     else
       cid ← lift (get_prop data (js "conversation_id"));
       when (truthy cid) (modify (set_currentConversationId cid));;
       resp ← lift (get_prop data (js "response"));
       addMessageToUI Assistant (js_or resp (JStr empty_response)))
    sendMessage_catch.

(** ** Backend status *)

Definition online_text : jstring := 10003 :: js " Online".
Definition offline_text : jstring := 10007 :: js " Offline".

(** [if (el) el.textContent = v] on the three status elements; [None]
    leaves an element as it is. *)
Definition set_text (which : world -> option jsval)
    (put : option jsval -> world -> world) (v : jsval) : M unit :=
  w ← get;
  match which w with
  | None => mret tt
  | Some _ => modify (put (Some v))
  end.

Definition set_backendStatus (v : jsval) : M unit :=
  set_text backendStatus (fun b w => set_status b (ragStatus w) (modelStatus w) w) v.
Definition set_ragStatus (v : jsval) : M unit :=
  set_text ragStatus (fun r w => set_status (backendStatus w) r (modelStatus w) w) v.
Definition set_modelStatus (v : jsval) : M unit :=
  set_text modelStatus (fun m w => set_status (backendStatus w) (ragStatus w) m w) v.

(** [checkSystemStatus], up to the [await] of [fetch]. *)
Definition checkSystemStatus_begin : M progress :=
  fetch GetRoot;;
  mret Awaiting.

(** [checkSystemStatus], from the moment the [fetch] promise settles; the
    [await] of [res.json()] follows at once and is taken with it. *)
Definition checkSystemStatus_resume (o : fetch_outcome) : M unit :=
  try_catch
    (res ← await o;
     data ← await (json res);
     set_backendStatus (JStr online_text);;
     set_ragStatus (JStr (js "RAG not configured"));;
     w ← get;
     match modelStatus w with
     | None => mret tt
     | Some _ =>
         m ← lift (get_prop data (js "model"));
         v ← to_text (js_or m (JStr (js "Unknown model")));
         set_modelStatus v
     end)
    (fun e =>
       console_error (js "Health check error:") e;;
       set_backendStatus (JStr offline_text);;
       set_ragStatus (JStr (js "-"));;
       set_modelStatus (JStr (js "-"))).

(** ** Documents *)

(** Does the item template of [renderDocuments] go through for one entry?
    It reads [doc.filename], [doc.file_size_mb] and [doc.upload_time] and
    converts each of them. *)
Definition doc_renders (doc : jsval) : bool :=
  match get_prop doc (js "filename"), get_prop doc (js "file_size_mb"),
        get_prop doc (js "upload_time") with
  | Ok f, Ok s, Ok t => stringifiable f && stringifiable s && stringifiable t
  | _, _, _ => false
  end.

(** [renderDocuments] *)
Definition renderDocuments : M unit :=
  w ← get;
  match documentsList w with
  | None => mret tt
  | Some _ =>
      let docs := documents w in
      if bool_decide (docs = ∅) then
        modify (set_documentsList (Some NoDocuments))
      else if bool_decide (map_Forall (fun _ doc => doc_renders doc = true) docs) then
        modify (set_documentsList (Some (Listing docs)))
      else throw TypeErr
  end.

(** [deleteDocument(doc_id)], up to the [await] of [fetch]; [confirmed] is
    the answer to the [confirm] dialog. *)
Definition deleteDocument_begin (doc_id : jstring) (confirmed : bool) : M progress :=
  if negb confirmed then mret Done
  else
    fetch (DeleteDoc doc_id);;
    mret Awaiting.

(** [deleteDocument(doc_id)], from the moment the [fetch] promise settles. *)
Definition deleteDocument_resume (doc_id : jstring) (o : fetch_outcome) : M unit :=
  try_catch
    (res ← await o;
     (if negb (ok res) then throw (JsError (JStr (js "Delete failed")))
      else mret tt);;
     modify (fun w => set_documents (delete doc_id (documents w)) w);;
     renderDocuments)
    (fun e => alert (WithCause (js "Error deleting document: ") e)).

(** ** Export *)

(** [exportChat], up to the [await] of [fetch]. *)
Definition exportChat_begin : M progress :=
  w ← get;
  if negb (truthy (currentConversationId w)) then
    alert (Plain (js "No conversation to export."));;
    mret Done
  else
    try_catch
      (id ← to_text (currentConversationId w);
       fetch (PostExport id);;
       mret Awaiting)
      (fun e =>
         alert (WithCause (js "Export failed: ") e);;
         mret Done).

(** [exportChat], from the moment the [fetch] promise settles.  The file
    name is made from the conversation id the state holds by then. *)
Definition exportChat_resume (o : fetch_outcome) : M unit :=
  try_catch
    (res ← await o;
     if negb (ok res) then alert (Plain (js "Failed to export chat."))
     else
       body ← await (blob res);
       w ← get;
       id ← to_text (currentConversationId w);
       deliver {| file_id := id; file_body := body |})
    (fun e => alert (WithCause (js "Export failed: ") e)).

(** ** The page as a whole: requests in flight *)

(** [loadDocuments], as far as it touches the surroundings above:
    [state.documents = {}] and the notice written into [#documentsList].
    (Its [console.log] line is added further down, with the rest of the
    page.) *)
Definition loadDocuments_inner : M unit :=
  modify (set_documents ∅);;
  modify (fun w => match documentsList w with
                   | Some _ => set_documentsList (Some Untouched) w
                   | None => w
                   end).

(** A parked [async] function: which one, and the locals it still needs.
    [checkSystemStatus] is called in one place only, by the
    [DOMContentLoaded] handler, which waits for it; so what is parked at
    the probe's request is that handler, with the three calls it still has
    to make. *)
Inductive parked : Type :=
  | ParkedSend
  | ParkedStartup
  | ParkedDelete (doc_id : jstring)
  | ParkedExport.

(** What runs when the request settles.  For the startup: the rest of
    [checkSystemStatus], then [initPIN] (which writes two flags that are
    not part of these surroundings), [loadDocuments] and
    [newConversation]; none of the three waits for anything, so no other
    event comes in between. *)
Definition resume (t : parked) (o : fetch_outcome) : M unit :=
  match t with
  | ParkedSend => sendMessage_resume o
  | ParkedStartup =>
      checkSystemStatus_resume o;;
      loadDocuments_inner;;
      newConversation
  | ParkedDelete doc_id => deleteDocument_resume doc_id o
  | ParkedExport => exportChat_resume o
  end.

(** The page between two turns of the event loop: its surroundings and
    the functions parked at a request, oldest first. *)
Record client : Type := { now : world; outstanding : list parked }.

(** What can happen next: the document has loaded, the user acts, or a
    request settles. *)
Inductive event : Type :=
  | Edit (value : jstring)            (* the user edits [#chatInput] *)
  | ClickSend                         (* [#sendBtn], or Enter in the input *)
  | ClickNew                          (* [#newConvBtn] *)
  | ClickExport                       (* [#exportBtn] *)
  | ClickDelete (doc_id : jstring) (confirmed : bool)
  | Load                              (* [DOMContentLoaded] *)
  | Settle (i : nat) (o : fetch_outcome).

(** An event handler calls an [async] function and drops the promise. *)
Definition call (t : parked) (f : M progress) (c : client) : client :=
  match f (now c) with
  | (Ok Awaiting, w) => {| now := w; outstanding := outstanding c ++ [t] |}
  | (_, w) => {| now := w; outstanding := outstanding c |}
  end.

Definition handle (e : event) (c : client) : client :=
  match e with
  | Edit value =>
      {| now := match chatInput (now c) with
                | Some _ => set_chatInput (Some value) (now c)
                | None => now c
                end;
         outstanding := outstanding c |}
  | ClickSend => call ParkedSend sendMessage_begin c
  | ClickNew => {| now := (newConversation (now c)).2; outstanding := outstanding c |}
  | ClickExport => call ParkedExport exportChat_begin c
  | ClickDelete doc_id confirmed =>
      call (ParkedDelete doc_id) (deleteDocument_begin doc_id confirmed) c
  | Load =>
      (* [applyTheme] and [setupEventListeners] change nothing of these
         surroundings; the handler then waits in [checkSystemStatus] *)
      call ParkedStartup checkSystemStatus_begin c
  | Settle i o =>
      match outstanding c !! i with
      | Some t => {| now := (resume t o (now c)).2;
                     outstanding := delete i (outstanding c) |}
      | None => c
      end
  end.

(** The events of a list, in turn.  Any list is allowed; the page itself
    sees [Load] once, and before any click. *)
Definition run (es : list event) (c : client) : client :=
  foldl (fun c e => handle e c) c es.

(** A send from the click to the reply, nothing else happening meanwhile. *)
Definition sendMessage (o : fetch_outcome) : M unit :=
  p ← sendMessage_begin;
  match p with
  | Done => mret tt
  | Awaiting => sendMessage_resume o
  end.

(** A request that did not bring a 2xx response: the promise of [fetch]
    rejected, or the status is outside 200..299. *)
Definition request_failed (o : fetch_outcome) : Prop :=
  match o with
  | Throw _ => True
  | Ok res => ok res = false
  end.

(** When the status probe ends in its [catch] block: the request did not
    arrive, the body did not parse, or (with [#modelStatus] on the page)
    the [model] field could not be read or turned into text. *)
Definition probe_caught (w : world) (o : fetch_outcome) : Prop :=
  match o with
  | Throw _ => True
  | Ok res =>
      match json res with
      | Throw _ => True
      | Ok data =>
          modelStatus w <> None /\
          match get_prop data (js "model") with
          | Throw _ => True
          | Ok m => stringifiable (js_or m (JStr (js "Unknown model"))) = false
          end
      end
  end.

(** The same response under another status. *)
Definition with_status (s : Z) (res : response) : response :=
  {| status := s; json := json res; blob := blob res |}.

(** One more [alert], nothing else. *)
Definition alerted (a : alert_text) (w : world) : world :=
  set_effects (requests w) (alerts w ++ [a]) (downloads w) (console w) w.

(** One more request, nothing else. *)
Definition requested (r : request) (w : world) : world :=
  set_effects (requests w ++ [r]) (alerts w) (downloads w) (console w) w.

(** A chat reply body with both fields. *)
Definition chat_reply (text cid : jstring) : jsval :=
  JObj [(js "response", JStr text); (js "conversation_id", JStr cid)].

(** ** The conversation as the page shows it *)

Definition bubbles (children : list node) : list message :=
  flat_map (fun n => match n with Bubble m => [m] | Placeholder => [] end) children.
Arguments bubbles : simpl never.

(** The messages of [#messagesContainer], in order. *)
Definition messages (w : world) : list message :=
  match messagesContainer w with
  | Some children => bubbles children
  | None => []
  end.

Definition user_says (s : jstring) : message :=
  {| msg_role := User; msg_text := JStr s |}.
Definition assistant_says (v : jsval) : message :=
  {| msg_role := Assistant; msg_text := v |}.

(** A page with every element in place, nothing said and nothing asked. *)
Definition fresh : world :=
  {| currentConversationId := JNull; documents := ∅;
     chatInput := Some []; messagesContainer := Some [Placeholder];
     backendStatus := Some (JStr []); ragStatus := Some (JStr []);
     modelStatus := Some (JStr []); documentsList := Some Untouched;
     requests := []; alerts := []; downloads := []; console := [] |}.

Definition page (w : world) : client := {| now := w; outstanding := [] |}.

(** A 2xx reply with a parsed body, and replies that fail. *)
Definition reply (s : Z) (body : jsval) : fetch_outcome :=
  Ok {| status := s; json := Ok body; blob := Ok [] |}.
Definition unreadable (s : Z) : fetch_outcome :=
  Ok {| status := s; json := Throw (Rejection (js "Unexpected token"));
        blob := Ok [] |}.
Definition unreachable : fetch_outcome := Throw (Rejection (js "Failed to fetch")).


(** ** The rest of the page: theme, tabs, documents tab, startup *)

(** *** Theme *)

(** What [#themeToggle] shows: the sun icon, the moon icon, or what the
    page came with. *)
Inductive toggle_face : Type := AsLoaded | SunIcon | MoonIcon.

(** [state.isDarkMode], the item ["dravis_darkMode"] of [localStorage]
    ([None] when there is none), the class list of [body] and the toggle
    button ([None] when the page has none). *)
Record theme_state : Type := {
  isDarkMode : bool;
  stored_darkMode : option jstring;
  body_classes : gset jstring;
  themeToggle : option toggle_face;
}.

(** [localStorage.getItem("dravis_darkMode") === "true"], the initial value
    of [state.isDarkMode]. *)
Definition load_isDarkMode (stored : option jstring) : bool :=
  bool_decide (stored = Some (js "true")).

(** The string [localStorage.setItem] stores for a boolean. *)
Definition bool_text (b : bool) : jstring := if b then js "true" else js "false".

(** [applyTheme] *)
Definition applyTheme (t : theme_state) : theme_state :=
  if isDarkMode t then
    {| isDarkMode := isDarkMode t; stored_darkMode := stored_darkMode t;
       body_classes := (body_classes t ∪ {[ js "dark-mode" ]}) ∖ {[ js "light-mode" ]};
       themeToggle := match themeToggle t with Some _ => Some SunIcon | None => None end |}
  else
    {| isDarkMode := isDarkMode t; stored_darkMode := stored_darkMode t;
       body_classes := (body_classes t ∪ {[ js "light-mode" ]}) ∖ {[ js "dark-mode" ]};
       themeToggle := match themeToggle t with Some _ => Some MoonIcon | None => None end |}.

(** [toggleTheme]; the browser is taken to accept the [setItem]. *)
Definition toggleTheme (t : theme_state) : theme_state :=
  applyTheme
    {| isDarkMode := negb (isDarkMode t);
       stored_darkMode := Some (bool_text (negb (isDarkMode t)));
       body_classes := body_classes t; themeToggle := themeToggle t |}.

(** The theme state a page load starts from: [state.isDarkMode] read from
    the stored item, then [applyTheme]. *)
Definition load_theme (stored : option jstring) (classes : gset jstring)
    (toggle : option toggle_face) : theme_state :=
  applyTheme {| isDarkMode := load_isDarkMode stored; stored_darkMode := stored;
                body_classes := classes; themeToggle := toggle |}.

(** *** Tabs *)

(** An element of the page as [switchTab] sees it: its [id], whether it is
    a [.tab-button] and its [data-tab], whether it is a [.tab-content], and
    whether it carries the class [active]. *)
Record element : Type := {
  el_id : option jstring;
  is_tab_button : bool;
  data_tab : option jstring;
  is_tab_content : bool;
  active : bool;
}.

Definition set_active (b : bool) (e : element) : element :=
  {| el_id := el_id e; is_tab_button := is_tab_button e; data_tab := data_tab e;
     is_tab_content := is_tab_content e; active := b |}.

(** [state.currentTab] ([None] for [undefined]) and the elements in
    document order. *)
Record tabs_state : Type := {
  currentTab : option jstring;
  elements : list element;
}.

(** The id the template literal makes of the tab name; [undefined] is
    spelled out. *)
Definition tab_id (tabName : option jstring) : jstring :=
  default (js "undefined") tabName ++ js "Tab".

(** [classList.add("active")] on what [getElementById(id)] finds: the first
    element with that id. *)
Fixpoint activate_by_id (id : jstring) (els : list element) : list element :=
  match els with
  | [] => []
  | e :: els' =>
      if bool_decide (el_id e = Some id) then set_active true e :: els'
      else e :: activate_by_id id els'
  end.

(** [switchTab(tabName)] *)
Definition switchTab (tabName : option jstring) (t : tabs_state) : tabs_state :=
  let els := elements t in
  (* every .tab-button: classList.toggle("active", btn.dataset.tab === tabName) *)
  let els := map (fun e => if is_tab_button e
                           then set_active (bool_decide (data_tab e = tabName)) e
                           else e) els in
  (* every .tab-content: classList.remove("active") *)
  let els := map (fun e => if is_tab_content e then set_active false e else e) els in
  {| currentTab := tabName; elements := activate_by_id (tab_id tabName) els |}.

(** *** The documents tab *)

(** What [#documentExplanationOutput] shows. *)
Inductive explain_view : Type :=
  | NothingYet
  | Generating                                   (* "Generating explanation..." *)
  | Explained (filename explanation : jsval)     (* heading and formatted text *)
  | ExplainFailed (e : exn).                     (* "Failed to explain document: " and [e.message] *)

(** The requests of the documents tab. *)
Inductive doc_request : Type :=
  | PostUpload (file : jstring)                  (* POST /documents/upload *)
  | GetExplain (doc_id : jstring).               (* GET /documents/<doc_id>/explain *)

(** The prototype of the object [state.documents]: [Object.prototype] as
    for every object literal, unless an assignment to its [__proto__] has
    replaced it. *)
Inductive proto : Type :=
  | ObjectPrototype
  | NoPrototype
  | ParsedPrototype (p : jsval).

Record docs_side : Type := {
  uploadStatus : option jsval;                   (* value given to [textContent] *)
  documentExplanationOutput : option explain_view;
  timers : nat;                                  (* pending [setTimeout] callbacks *)
  doc_requests : list doc_request;
  documents_proto : proto;
}.

Record pin_state : Type := { isPINSet : bool; isAuthenticated : bool }.

(** Everything the script works on. *)
Record whole : Type := {
  inner : world;
  theme : theme_state;
  tabs : tabs_state;
  side : docs_side;
  pin : pin_state;
  console_log : list jstring;
}.

Definition set_inner (w : world) (s : whole) : whole :=
  {| inner := w; theme := theme s; tabs := tabs s; side := side s; pin := pin s;
     console_log := console_log s |}.
Definition set_theme (t : theme_state) (s : whole) : whole :=
  {| inner := inner s; theme := t; tabs := tabs s; side := side s; pin := pin s;
     console_log := console_log s |}.
Definition set_side (d : docs_side) (s : whole) : whole :=
  {| inner := inner s; theme := theme s; tabs := tabs s; side := d; pin := pin s;
     console_log := console_log s |}.
Definition set_pin (a : pin_state) (s : whole) : whole :=
  {| inner := inner s; theme := theme s; tabs := tabs s; side := side s; pin := a;
     console_log := console_log s |}.
Definition set_console_log (l : list jstring) (s : whole) : whole :=
  {| inner := inner s; theme := theme s; tabs := tabs s; side := side s; pin := pin s;
     console_log := l |}.

Definition set_uploadStatus (v : option jsval) (d : docs_side) : docs_side :=
  {| uploadStatus := v; documentExplanationOutput := documentExplanationOutput d;
     timers := timers d; doc_requests := doc_requests d;
     documents_proto := documents_proto d |}.
Definition set_explanation (v : option explain_view) (d : docs_side) : docs_side :=
  {| uploadStatus := uploadStatus d; documentExplanationOutput := v;
     timers := timers d; doc_requests := doc_requests d;
     documents_proto := documents_proto d |}.
Definition set_timers (n : nat) (d : docs_side) : docs_side :=
  {| uploadStatus := uploadStatus d;
     documentExplanationOutput := documentExplanationOutput d;
     timers := n; doc_requests := doc_requests d;
     documents_proto := documents_proto d |}.
Definition set_doc_requests (l : list doc_request) (d : docs_side) : docs_side :=
  {| uploadStatus := uploadStatus d;
     documentExplanationOutput := documentExplanationOutput d;
     timers := timers d; doc_requests := l;
     documents_proto := documents_proto d |}.
Definition set_documents_proto (p : proto) (d : docs_side) : docs_side :=
  {| uploadStatus := uploadStatus d;
     documentExplanationOutput := documentExplanationOutput d;
     timers := timers d; doc_requests := doc_requests d;
     documents_proto := p |}.

(** State and exceptions over the whole page. *)
Definition W (A : Type) : Type := whole -> result A * whole.

#[global] Instance W_ret : MRet W := fun A a s => (Ok a, s).
#[global] Instance W_bind : MBind W := fun A B f m s =>
  match m s with
  | (Ok a, s') => f a s'
  | (Throw e, s') => (Throw e, s')
  end.

Definition throwW {A} (e : exn) : W A := fun s => (Throw e, s).
Definition try_catchW {A} (body : W A) (handler : exn -> W A) : W A := fun s =>
  match body s with
  | (Ok a, s') => (Ok a, s')
  | (Throw e, s') => handler e s'
  end.
Definition liftW {A} (r : result A) : W A := fun s => (r, s).
Definition getW : W whole := fun s => (Ok s, s).
Definition modifyW (f : whole -> whole) : W unit := fun s => (Ok tt, f s).

(** A function of the chat part, run on the whole page. *)
Definition on_inner {A} (m : M A) : W A := fun s =>
  let '(r, w) := m (inner s) in (r, set_inner w s).

(** [if (uploadStatus) uploadStatus.textContent = v] *)
Definition say_upload (v : jstring) : W unit :=
  modifyW (fun s =>
    match uploadStatus (side s) with
    | Some _ => set_side (set_uploadStatus (Some (JStr v)) (side s)) s
    | None => s
    end).

Definition uploading_text : jstring := js "Uploading...".
Definition uploaded_text : jstring := js "Uploaded successfully " ++ [10004].
Definition upload_failed_text : jstring := js "Upload failed " ++ [10060].

(** The callback handed to [setTimeout] after an upload: it empties the
    status line. *)
Definition upload_timer_fires (s : whole) : whole :=
  match timers (side s) with
  | O => s
  | S n =>
      let s := set_side (set_timers n (side s)) s in
      match uploadStatus (side s) with
      | Some _ => set_side (set_uploadStatus (Some (JStr [])) (side s)) s
      | None => s
      end
  end.

(** The text [Array.prototype.join] takes for one item: [null] and
    [undefined] count as empty, anything else is converted. *)
Definition item_text (conv : jsval -> result jstring) (e : jsval) : result jstring :=
  match e with
  | JUndefined | JNull => Ok []
  | _ => conv e
  end.

(** [Array.prototype.join] with the default comma. *)
Fixpoint join_items (conv : jsval -> result jstring) (l : list jsval)
  : result jstring :=
  match l with
  | [] => Ok []
  | e :: l' =>
      match item_text conv e with
      | Throw x => Throw x
      | Ok s =>
          match l' with
          | [] => Ok s
          | _ :: _ =>
              match join_items conv l' with
              | Ok rest => Ok (s ++ js "," ++ rest)
              | Throw x => Throw x
              end
          end
      end
  end.

Section WithNumberText.

(** The text of a number ([Number::toString]); the program never looks into
    it, so it is left open. *)
Variable number_text : Z -> jstring.

(** ToString. *)
Fixpoint to_string (v : jsval) : result jstring :=
  match v with
  | JUndefined => Ok (js "undefined")
  | JNull => Ok (js "null")
  | JBool b => Ok (bool_text b)
  | JNum n => Ok (number_text n)
  | JStr s => Ok s
  | JObj fields =>
      if existsb (fun kv => bool_decide (kv.1 = js "toString")) fields
      then Throw TypeErr
      else Ok (js "[object Object]")
  | JArr items => join_items to_string items
  end.

(** Does the prototype chain of [state.documents] lead an assignment to
    the key [__proto__] to the setter of [Object.prototype]?  Not when
    there is no prototype, nor when a parsed object with an own entry of
    that name stands in between. *)
Definition proto_setter_reached (p : proto) : bool :=
  match p with
  | ObjectPrototype => true
  | NoPrototype => false
  | ParsedPrototype (JObj fields) =>
      negb (existsb (fun kv => bool_decide (kv.1 = js "__proto__")) fields)
  | ParsedPrototype _ => true
  end.

(** [state.documents[key] = value] for a value out of [JSON.parse]. *)
Definition assign_document (key : jstring) (value : jsval) : W unit :=
  s ← getW;
  if bool_decide (key = js "__proto__") && proto_setter_reached (documents_proto (side s))
  then
    (* the setter replaces the prototype by an object or [null] and
       ignores anything else; no entry is made *)
    match value with
    | JObj _ | JArr _ =>
        modifyW (set_side (set_documents_proto (ParsedPrototype value) (side s)))
    | JNull => modifyW (set_side (set_documents_proto NoPrototype (side s)))
    | _ => mret tt
    end
  else
    modifyW (set_inner (set_documents (<[key := value]> (documents (inner s))) (inner s))).

(** [handleDocumentUpload(file)], up to the [await] of [fetch]. *)
Definition handleDocumentUpload_begin (file : jstring) : W progress :=
  say_upload uploading_text;;
  modifyW (fun s => set_side (set_doc_requests (doc_requests (side s) ++ [PostUpload file])
                                (side s)) s);;
  mret Awaiting.

(** The [catch] block of [handleDocumentUpload]. *)
Definition handleDocumentUpload_catch (e : exn) : W unit :=
  on_inner (console_error (js "Upload error:") e);;
  say_upload upload_failed_text.

(** [handleDocumentUpload(file)], from the moment the [fetch] promise
    settles; the [await] of [res.json()] follows at once and is taken with
    it. *)
Definition handleDocumentUpload_resume (o : fetch_outcome) : W unit :=
  try_catchW
    (res ← liftW o;
     data ← liftW (json res);
     (if negb (ok res) then
        d ← liftW (get_prop data (js "detail"));
        detail ← on_inner (to_text (js_or d (JStr (js "Upload failed"))));
        throwW (JsError detail)
      else mret tt);;
     doc_id ← liftW (get_prop data (js "doc_id"));
     metadata ← liftW (get_prop data (js "metadata"));
     key ← liftW (to_string doc_id);
     assign_document key metadata;;
     on_inner renderDocuments;;
     say_upload uploaded_text;;
     modifyW (fun s => set_side (set_timers (S (timers (side s))) (side s)) s))
    handleDocumentUpload_catch.

End WithNumberText.

(** [if the element is there, write its innerHTML] *)
Definition show_explanation (v : explain_view) : W unit :=
  modifyW (fun s =>
    match documentExplanationOutput (side s) with
    | Some _ => set_side (set_explanation (Some v) (side s)) s
    | None => s
    end).

(** [explainDocument(doc_id)], up to the [await] of [fetch]. *)
Definition explainDocument_begin (doc_id : jstring) : W progress :=
  s ← getW;
  match documentExplanationOutput (side s) with
  | None => mret Done
  | Some _ =>
      show_explanation Generating;;
      modifyW (fun s => set_side (set_doc_requests
                                    (doc_requests (side s) ++ [GetExplain doc_id])
                                    (side s)) s);;
      mret Awaiting
  end.

(** What [escapeHtml(v)] needs of [v]: [textContent] takes [null] and
    [undefined] as the empty string and converts anything else. *)
Definition escapes (v : jsval) : bool :=
  match v with
  | JUndefined | JNull => true
  | _ => stringifiable v
  end.

(** [explainDocument(doc_id)], from the moment the [fetch] promise
    settles. *)
Definition explainDocument_resume (o : fetch_outcome) : W unit :=
  try_catchW
    (res ← liftW o;
     data ← liftW (json res);
     (if negb (ok res) then
        d ← liftW (get_prop data (js "detail"));
        detail ← on_inner (to_text (js_or d (JStr (js "Explanation failed"))));
        throwW (JsError detail)
      else mret tt);;
     filename ← liftW (get_prop data (js "filename"));
     (if escapes filename then mret tt else throwW TypeErr);;
     explanation ← liftW (get_prop data (js "explanation"));
     (if renders explanation then mret tt else throwW TypeErr);;
     show_explanation (Explained filename explanation))
    (fun e =>
       on_inner (console_error (js "Explain error:") e);;
       show_explanation (ExplainFailed e)).

(** [initPIN] *)
Definition initPIN : W unit :=
  modifyW (set_pin {| isPINSet := false; isAuthenticated := true |}).

(** [loadDocuments] *)
Definition loadDocuments : W unit :=
  modifyW (fun s => set_console_log
             (console_log s
              ++ [[55357; 56513] ++ js " Documents feature disabled temporarily (no backend)."])
             s);;
  (* state.documents = {}: a new object, with the prototype of every
     object literal *)
  modifyW (fun s => set_side (set_documents_proto ObjectPrototype (side s)) s);;
  on_inner loadDocuments_inner.

(** The [DOMContentLoaded] handler, up to its first [await] that waits for
    the network: [applyTheme], the wiring of the listeners (which changes
    nothing here), and [checkSystemStatus] as far as its [fetch]. *)
Definition startup_begin : W progress :=
  modifyW (fun s => set_theme (applyTheme (theme s)) s);;
  on_inner checkSystemStatus_begin.

(** The [DOMContentLoaded] handler once the probe has settled: the rest of
    [checkSystemStatus], then [initPIN], [loadDocuments] and
    [newConversation]; none of these waits for anything, so they run in
    one go. *)
Definition startup_resume (o : fetch_outcome) : W unit :=
  on_inner (checkSystemStatus_resume o);;
  initPIN;;
  loadDocuments;;
  on_inner newConversation.

(** ** Further notions used by the properties below *)

(** A whole page with every element in place, as the script finds it. *)
Definition fresh_whole : whole :=
  {| inner := fresh;
     theme := {| isDarkMode := false; stored_darkMode := None; body_classes := ∅;
                 themeToggle := Some AsLoaded |};
     tabs := {| currentTab := Some (js "chat"); elements := [] |};
     side := {| uploadStatus := Some (JStr []);
                documentExplanationOutput := Some NothingYet; timers := 0;
                doc_requests := []; documents_proto := ObjectPrototype |};
     pin := {| isPINSet := false; isAuthenticated := true |};
     console_log := [] |}.

(** An upload reply body. *)
Definition upload_reply (doc_id : jstring) (metadata : jsval) : jsval :=
  JObj [(js "doc_id", JStr doc_id); (js "metadata", metadata)].

(** A code unit that neither [escapeHtml] nor any substitution looks for,
    the dash apart: not [&], [<], [>], U+00A0, a star, a backquote or a
    line terminator. *)
Definition plain (c : N) : bool :=
  negb ((c =? c_amp) || (c =? c_nbsp) || (c =? c_lt) || (c =? c_gt)
        || (c =? c_star) || (c =? c_tick) || line_terminator c).

(** The character references [escapeHtml] writes, each with the code unit
    it stands for. *)
Definition references : list (jstring * N) :=
  [(js "&amp;", c_amp); (js "&lt;", c_lt); (js "&gt;", c_gt); (js "&nbsp;", c_nbsp)].

(** [stands_for h t]: the markup [h] spells the text [t] and leaves nothing
    of it to be taken for markup.  An ampersand, an angle bracket or a
    no-break space of [t] is written as its reference, every other unit as
    itself; so [h] holds no angle bracket, and an ampersand of [h] always
    opens a reference. *)
Inductive stands_for : jstring -> jstring -> Prop :=
  | stands_nil : stands_for [] []
  | stands_unit c h t :
      c <> c_amp -> c <> c_lt -> c <> c_gt -> c <> c_nbsp ->
      stands_for h t -> stands_for (c :: h) (c :: t)
  | stands_ref e c h t :
      (e, c) ∈ references -> stands_for h t -> stands_for (e ++ h) (c :: t).

(** A code unit that no substitution looks for: not a star, a backquote
    or a line terminator.  The units [escapeHtml] rewrites are among
    them. *)
Definition unmarked (c : N) : bool :=
  negb ((c =? c_star) || (c =? c_tick) || line_terminator c).


(** The conversation id is [null] or truthy: the only two kinds of value
    the program ever stores in it. *)
Definition id_settled (w : world) : Prop :=
  currentConversationId w = JNull \/ truthy (currentConversationId w) = true.

(** The container shows the placeholder alone, or messages only. *)
Definition tidy (w : world) : Prop :=
  match messagesContainer w with
  | None => True
  | Some children =>
      children = [Placeholder] \/
      Forall (fun n => match n with Bubble _ => True | Placeholder => False end)
        children
  end.

(** * Properties *)

(** ** The text renderer *)

Module RenderFacts.
Import Render.

Lemma strip_prefix_spec p s r : strip_prefix p s = Some r -> s = p ++ r.
Proof.
  revert s; induction p as [|a p IH]; intros [|b s]; simpl; try congruence.
  destruct (N.eqb_spec a b); [|discriminate].
  intros H; apply IH in H; congruence.
Qed.

Lemma lazy_until_spec delim x s cap rest :
  lazy_until delim x s = Some (cap, rest) -> s = cap ++ delim ++ rest.
Proof.
  revert cap; induction s as [|c s IH]; intros cap; simpl.
  - destruct (strip_prefix delim []) eqn:E.
    + intros [= <- <-]. by apply strip_prefix_spec in E.
    + discriminate.
  - destruct (strip_prefix delim (c :: s)) eqn:E.
    + intros [= <- <-]. by apply strip_prefix_spec in E.
    + destruct (x c); [|discriminate].
      destruct (lazy_until delim x s) as [[cap' rest']|]; [|discriminate].
      intros [= <- <-]. by rewrite (IH cap' eq_refl).
Qed.

Lemma span_spec x s run rest :
  span x s = (run, rest) ->
  s = run ++ rest /\ (rest = [] \/ exists c r, rest = c :: r /\ x c = false).
Proof.
  revert run; induction s as [|c s IH]; intros run; simpl.
  - intros [= <- <-]; auto.
  - destruct (x c) eqn:E.
    + destruct (span x s) as [run' rest']. intros [= <- <-].
      destruct (IH run' eq_refl) as [-> Hr]. auto.
    + intros [= <- <-]. split; [done|]. right; eauto.
Qed.

Lemma tagged_app a b : tagged a -> tagged b -> tagged (a ++ b).
Proof.
  induction 1 as [|c s ? ? ? IH|t s ? ? IH]; intros Hb; simpl; auto.
  - constructor; auto.
  - rewrite <- app_assoc. constructor; auto.
Qed.

Lemma tagged_one t : t ∈ tags -> tagged t.
Proof.
  intros H. rewrite <- (app_nil_r t). constructor; [done|constructor].
Qed.

Lemma tags_units :
  Forall (fun t => t <> [] /\ Forall (fun c => tag_unit c = true) t) tags.
Proof. repeat constructor; discriminate. Qed.

Lemma tag_unit_bracket c : tag_unit c = false -> c <> c_lt /\ c <> c_gt.
Proof. intros H; split; intros ->; discriminate. Qed.

(** Cutting where a tag ends and a foreign unit stands. *)
Lemma app_cut_unit (t a b s : jstring) d :
  Forall (fun c => tag_unit c = true) t -> tag_unit d = false ->
  t ++ s = a ++ d :: b -> exists a', a = t ++ a' /\ s = a' ++ d :: b.
Proof.
  intros Ht Hd; revert a; induction Ht as [|x t Hx _ IH]; intros a; simpl.
  - intros ->. by exists a.
  - destruct a as [|y a]; simpl; intros [= -> E].
    + congruence.
    + destruct (IH a E) as (a' & -> & ->). by exists a'.
Qed.

(** A unit that is in no tag cuts well-tagged markup into well-tagged
    halves. *)
Lemma tagged_split a d b :
  tag_unit d = false -> tagged (a ++ d :: b) -> tagged a /\ tagged b.
Proof.
  intros Hd H. remember (a ++ d :: b) as s eqn:E.
  revert a E; induction H as [|c s Hlt Hgt H IH|t s Ht H IH]; intros a E.
  - by destruct a.
  - destruct a as [|y a]; simpl in E; injection E as -> ->.
    + split; [constructor|done].
    + destruct (IH a eq_refl) as [Ha Hb]. split; [by constructor|done].
  - pose proof tags_units as Hu. rewrite Forall_forall in Hu.
    destruct (Hu t Ht) as [_ Hu'].
    destruct (app_cut_unit t a b s d Hu' Hd E) as (a' & -> & ->).
    destruct (IH a' eq_refl) as [Ha Hb]. split; [by constructor|done].
Qed.

Lemma tagged_behind ds b :
  Forall (fun d => tag_unit d = false) ds -> tagged (ds ++ b) -> tagged b.
Proof.
  induction 1 as [|d ds Hd _ IH]; simpl; [done|].
  intros H. apply (tagged_split [] d) in H as [_ H]; auto.
Qed.

Lemma tagged_around a ds b :
  ds <> [] -> Forall (fun d => tag_unit d = false) ds ->
  tagged (a ++ ds ++ b) -> tagged a /\ tagged b.
Proof.
  intros Hne Hds H. destruct Hds as [|d ds Hd Hds]; [done|].
  simpl in H. apply tagged_split in H as [Ha H]; [|done].
  split; [done|]. by apply (tagged_behind ds).
Qed.

Lemma line_terminator_no_tag c : line_terminator c = true -> tag_unit c = false.
Proof.
  unfold line_terminator. rewrite !orb_true_iff, !N.eqb_eq.
  intros [[[-> | ->] | ->] | ->]; reflexivity.
Qed.

(** Every pattern starts with a unit that is in no tag. *)
Lemma strip_prefix_tag_unit d p c s :
  tag_unit d = false -> tag_unit c = true -> strip_prefix (d :: p) (c :: s) = None.
Proof.
  intros Hd Hc. simpl. destruct (N.eqb_spec d c); [congruence|done].
Qed.

Ltac open_match H :=
  repeat match type of H with
  | (_ ≫= _) = Some _ => apply bind_Some in H as (? & ? & H)
  | (let '(_, _) := ?p in _) = Some _ => destruct p eqn:?
  | match ?x with Some _ => _ | None => _ end = Some _ => destruct x eqn:?; [|discriminate H]
  | match ?x with [] => _ | _ :: _ => _ end = Some _ => destruct x eqn:?; [discriminate H|]
  | (if ?x then _ else _) = Some _ => destruct x eqn:?; [|discriminate H]
  end.

Ltac tag_in := unfold tags; set_solver.

Lemma foreign_spec ds :
  foreign ds = true -> ds <> [] /\ Forall (fun d => tag_unit d = false) ds.
Proof.
  destruct ds as [|d ds]; [discriminate|]. unfold foreign.
  rewrite forallb_forall. intros H. split; [done|].
  apply Forall_forall. intros c Hc. apply negb_true_iff, H.
  by apply list_elem_of_In.
Qed.

Lemma tagged_behind_foreign ds b :
  foreign ds = true -> tagged (ds ++ b) -> tagged b.
Proof. intros [_ H]%foreign_spec. by apply tagged_behind. Qed.

Lemma delimited_tagged (opening closing cap rest s s1 : jstring) :
  s = opening ++ s1 -> s1 = cap ++ closing ++ rest -> tagged s ->
  foreign opening = true -> foreign closing = true ->
  tagged cap /\ tagged rest.
Proof.
  intros -> -> H [Hon Ho]%foreign_spec [Hcn Hc]%foreign_spec.
  apply (tagged_behind opening) in H; [|done].
  by apply tagged_around in H.
Qed.

(** From [Hs : tagged s] and the equations of a match that opens and closes
    with foreign units: the capture and the rest are well tagged. *)
Ltac delimited Hs :=
  match goal with
  | H1 : strip_prefix _ _ = Some _, H2 : lazy_until _ _ _ = Some _ |- _ =>
      apply strip_prefix_spec in H1; apply lazy_until_spec in H2;
      destruct (delimited_tagged _ _ _ _ _ _ H1 H2 Hs eq_refl eq_refl) as [? ?]
  end.

Lemma bold_tag_safe : tag_safe bold.
Proof.
  split.
  - intros prev c s Hc. unfold bold.
    change (js "**") with [c_star; c_star].
    by rewrite (strip_prefix_tag_unit c_star) by done.
  - intros prev s out rest Hs H. unfold bold in H. open_match H.
    subst. injection H as <- <-. delimited Hs.
    split; [|done].
    apply (tagged_tag (js "<b>")); [tag_in|].
    apply tagged_app; [done|]. apply tagged_one; tag_in.
Qed.

Lemma italic_tag_safe : tag_safe italic.
Proof.
  split.
  - intros prev c s Hc. unfold italic.
    change (js "*") with [c_star].
    by rewrite (strip_prefix_tag_unit c_star) by done.
  - intros prev s out rest Hs H. unfold italic in H. open_match H.
    subst. injection H as <- <-. delimited Hs.
    split; [|done].
    apply (tagged_tag (js "<i>")); [tag_in|].
    apply tagged_app; [done|]. apply tagged_one; tag_in.
Qed.

Lemma fence_tag_safe : tag_safe fence.
Proof.
  split.
  - intros prev c s Hc. unfold fence.
    change (js "```") with [c_tick; c_tick; c_tick].
    by rewrite (strip_prefix_tag_unit c_tick) by done.
  - intros prev s out rest Hs H. unfold fence in H. open_match H.
    subst. injection H as <- <-. delimited Hs.
    split; [|done].
    apply (tagged_tag (js "<pre>")); [tag_in|].
    apply (tagged_tag (js "<code>")); [tag_in|].
    apply tagged_app; [done|].
    apply (tagged_tag (js "</code>")); [tag_in|].
    apply tagged_one; tag_in.
Qed.

Lemma code_tag_safe : tag_safe code.
Proof.
  split.
  - intros prev c s Hc. unfold code.
    change (js "`") with [c_tick].
    by rewrite (strip_prefix_tag_unit c_tick) by done.
  - intros prev s out rest Hs H. unfold code in H.
    apply bind_Some in H as (s1 & H1 & H).
    destruct (span not_tick s1) as [cap s2] eqn:Hspan.
    destruct cap as [|c cap]; [discriminate|].
    apply bind_Some in H as (rest' & H2 & H). injection H as <- <-.
    apply strip_prefix_spec in H1, H2. apply span_spec in Hspan as [Hs1 _].
    rewrite H2 in Hs1.
    destruct (delimited_tagged _ _ _ _ _ _ H1 Hs1 Hs eq_refl eq_refl) as [? ?].
    split; [|done].
    apply (tagged_tag (js "<code>")); [tag_in|].
    apply (tagged_app (c :: cap)); [done|]. apply tagged_one; tag_in.
Qed.

Lemma bullet_tag_safe : tag_safe bullet.
Proof.
  split.
  - intros prev c s Hc. unfold bullet. destruct (at_line_start prev); [|done].
    change (js "- ") with [c_dash; c_space].
    by rewrite (strip_prefix_tag_unit c_dash) by done.
  - intros prev s out rest Hs H. unfold bullet in H.
    destruct (at_line_start prev); [|discriminate].
    apply bind_Some in H as (s1 & H1 & H).
    destruct (span dot s1) as [cap rest'] eqn:Hspan. injection H as <- <-.
    apply strip_prefix_spec in H1. subst s.
    apply (tagged_behind_foreign (js "- ")) in Hs; [|done].
    apply span_spec in Hspan as [-> Hrest].
    assert (tagged cap /\ tagged rest') as [? ?].
    { destruct Hrest as [->|(c & r & -> & Hc)].
      - rewrite app_nil_r in Hs. split; [done|constructor].
      - assert (tag_unit c = false) as Hf.
        { apply line_terminator_no_tag. unfold dot in Hc.
          by apply negb_false_iff in Hc. }
        apply tagged_split in Hs as [? ?]; [|done].
        destruct (tag_unit_bracket c Hf). split; [done|by constructor]. }
    split; [|done]. by repeat (constructor; [done|done|]).
Qed.

Lemma blank_line_tag_safe : tag_safe blank_line.
Proof.
  split.
  - intros prev c s Hc. unfold blank_line.
    by rewrite (strip_prefix_tag_unit c_nl) by done.
  - intros prev s out rest Hs H. unfold blank_line in H.
    apply bind_Some in H as (rest' & H1 & H). injection H as <- <-.
    apply strip_prefix_spec in H1. subst s.
    apply (tagged_behind_foreign [c_nl; c_nl]) in Hs; [|done].
    split; [|done].
    apply (tagged_tag (js "<br>")); [tag_in|]. apply tagged_one; tag_in.
Qed.

Lemma line_break_tag_safe : tag_safe line_break.
Proof.
  split.
  - intros prev c s Hc. unfold line_break.
    by rewrite (strip_prefix_tag_unit c_nl) by done.
  - intros prev s out rest Hs H. unfold line_break in H.
    apply bind_Some in H as (rest' & H1 & H). injection H as <- <-.
    apply strip_prefix_spec in H1. subst s.
    apply (tagged_behind_foreign [c_nl]) in Hs; [|done].
    split; [|done]. apply tagged_one; tag_in.
Qed.

(** Inside a tag the scan only copies. *)
Lemma replace_from_through m t :
  (forall prev c s, tag_unit c = true -> m prev (c :: s) = None) ->
  Forall (fun c => tag_unit c = true) t ->
  forall fuel prev s, exists fuel' prev',
    (fuel' <= fuel)%nat /\
    replace_from fuel m prev (t ++ s) = t ++ replace_from fuel' m prev' s.
Proof.
  intros Hnone Ht; induction Ht as [|c t Hc _ IH]; intros fuel prev s.
  - exists fuel, prev. done.
  - destruct fuel as [|fuel]; simpl.
    + exists 0%nat, prev. done.
    + rewrite (Hnone prev c (t ++ s) Hc).
      destruct (IH fuel (Some c) s) as (fuel' & prev' & Hle & ->).
      exists fuel', prev'. split; [lia|done].
Qed.

(** A global replace with a tag-safe pattern keeps markup well tagged,
    whatever the fuel. *)
Lemma replace_from_tagged m :
  tag_safe m ->
  forall fuel prev s, tagged s -> tagged (replace_from fuel m prev s).
Proof.
  intros [Hnone Hsome] fuel.
  induction fuel as [fuel IH] using lt_wf_ind. intros prev s Hs.
  destruct fuel as [|fuel]; [done|].
  inversion Hs as [|c s' Hlt Hgt Hs' E|t s' Ht Hs' E]; subst.
  - constructor.
  - simpl. destruct (m prev (c :: s')) as [[out rest]|] eqn:Em.
    + destruct (Hsome _ _ _ _ Hs Em) as [Hout Hrest].
      apply tagged_app; [done|]. apply IH; [lia|done].
    + constructor; [done|done|]. apply IH; [lia|done].
  - pose proof tags_units as Hu. rewrite Forall_forall in Hu.
    destruct (Hu t Ht) as [Hne Hu'].
    destruct t as [|c t]; [done|]. apply Forall_cons_1 in Hu' as [Hc Hu'].
    simpl. rewrite (Hnone prev c (t ++ s') Hc).
    destruct (replace_from_through m t Hnone Hu' fuel (Some c) s')
      as (fuel' & prev' & Hle & ->).
    change (c :: t ++ ?x) with ((c :: t) ++ x).
    constructor; [done|]. apply IH; [lia|done].
Qed.

Lemma replace_tagged m s : tag_safe m -> tagged s -> tagged (replace m s).
Proof. intros. by apply replace_from_tagged. Qed.

Lemma escape_unit_tagged c s : tagged s -> tagged (escape_unit c ++ s).
Proof.
  intros Hs. unfold escape_unit.
  repeat (match goal with |- context [if ?b then _ else _] => destruct b eqn:? end);
    try (vm_compute app; by repeat (constructor; [done|done|])).
  simpl. constructor; [| |done]; intros ->; discriminate.
Qed.

Lemma escapeHtml_tagged str : tagged (escapeHtml str).
Proof.
  induction str as [|c str IH]; simpl; [constructor|].
  by apply escape_unit_tagged.
Qed.

(** No angle bracket comes out of [escapeHtml]. *)
Lemma escapeHtml_no_bracket str :
  Forall (fun c => c <> c_lt /\ c <> c_gt) (escapeHtml str).
Proof.
  induction str as [|x str IH]; simpl; [constructor|].
  apply Forall_app; split; [|done]. unfold escape_unit.
  destruct (N.eqb_spec x c_amp); [by repeat constructor|].
  destruct (N.eqb_spec x c_nbsp); [by repeat constructor|].
  destruct (N.eqb_spec x c_lt); [by repeat constructor|].
  destruct (N.eqb_spec x c_gt); [by repeat constructor|].
  by repeat constructor.
Qed.

Lemma delimited_consumes (opening cap closing rest s s1 : jstring) :
  s = opening ++ s1 -> s1 = cap ++ closing ++ rest -> opening <> [] ->
  (length rest < length s)%nat.
Proof.
  intros -> -> H. rewrite !length_app.
  destruct opening; [done|]. simpl. lia.
Qed.

Lemma bold_consuming : consuming bold.
Proof.
  intros prev s out rest H. unfold bold in H. open_match H.
  subst. injection H as <- <-.
  match goal with
  | H1 : strip_prefix _ _ = Some _, H2 : lazy_until _ _ _ = Some _ |- _ =>
      apply strip_prefix_spec in H1; apply lazy_until_spec in H2;
      by apply (delimited_consumes _ _ _ _ _ _ H1 H2)
  end.
Qed.

Lemma italic_consuming : consuming italic.
Proof.
  intros prev s out rest H. unfold italic in H. open_match H.
  subst. injection H as <- <-.
  match goal with
  | H1 : strip_prefix _ _ = Some _, H2 : lazy_until _ _ _ = Some _ |- _ =>
      apply strip_prefix_spec in H1; apply lazy_until_spec in H2;
      by apply (delimited_consumes _ _ _ _ _ _ H1 H2)
  end.
Qed.

Lemma fence_consuming : consuming fence.
Proof.
  intros prev s out rest H. unfold fence in H. open_match H.
  subst. injection H as <- <-.
  match goal with
  | H1 : strip_prefix _ _ = Some _, H2 : lazy_until _ _ _ = Some _ |- _ =>
      apply strip_prefix_spec in H1; apply lazy_until_spec in H2;
      by apply (delimited_consumes _ _ _ _ _ _ H1 H2)
  end.
Qed.

Lemma code_consuming : consuming code.
Proof.
  intros prev s out rest H. unfold code in H.
  apply bind_Some in H as (s1 & H1 & H).
  destruct (span not_tick s1) as [cap s2] eqn:Hspan.
  destruct cap as [|c cap]; [discriminate|].
  apply bind_Some in H as (rest' & H2 & H). injection H as <- <-.
  apply strip_prefix_spec in H1, H2. apply span_spec in Hspan as [Hs1 _].
  rewrite H2 in Hs1. by apply (delimited_consumes _ _ _ _ _ _ H1 Hs1).
Qed.

Lemma bullet_consuming : consuming bullet.
Proof.
  intros prev s out rest H. unfold bullet in H.
  destruct (at_line_start prev); [|discriminate].
  apply bind_Some in H as (s1 & H1 & H).
  destruct (span dot s1) as [cap rest'] eqn:Hspan. injection H as <- <-.
  apply strip_prefix_spec in H1. apply span_spec in Hspan as [Hs1 _].
  subst. rewrite !length_app. simpl. lia.
Qed.

Lemma blank_line_consuming : consuming blank_line.
Proof.
  intros prev s out rest H. unfold blank_line in H.
  apply bind_Some in H as (rest' & H1 & H). injection H as <- <-.
  apply strip_prefix_spec in H1. subst. simpl. lia.
Qed.

Lemma line_break_consuming : consuming line_break.
Proof.
  intros prev s out rest H. unfold line_break in H.
  apply bind_Some in H as (rest' & H1 & H). injection H as <- <-.
  apply strip_prefix_spec in H1. subst. simpl. lia.
Qed.

(** With a consuming pattern, one unit of fuel per code unit carries the
    scan to the end of the input. *)
Lemma replace_from_scan m :
  consuming m ->
  forall fuel prev s, (length s <= fuel)%nat ->
    scan m prev s (replace_from fuel m prev s).
Proof.
  intros Hm fuel; induction fuel as [|fuel IH]; intros prev s Hlen.
  - destruct s; [constructor|simpl in Hlen; lia].
  - destruct s as [|c s]; simpl; [constructor|].
    destruct (m prev (c :: s)) as [[out rest]|] eqn:E.
    + apply (scan_hit m prev c s out rest); [done|]. apply IH.
      apply Hm in E. simpl in *. lia.
    + apply scan_miss; [done|]. apply IH. simpl in Hlen. lia.
Qed.

Lemma replace_scan m s : consuming m -> scan m None s (replace m s).
Proof. intros Hm. by apply replace_from_scan. Qed.

Lemma scan_unique m prev s o1 o2 : scan m prev s o1 -> scan m prev s o2 -> o1 = o2.
Proof.
  intros H1; revert o2; induction H1; intros o2 H2; inversion H2; subst;
    try congruence.
  - match goal with
    | Ha : m _ _ = Some _, Hb : m _ _ = Some _ |- _ =>
        rewrite Ha in Hb; injection Hb as <- <- end.
    f_equal; auto.
  - f_equal; auto.
Qed.

(** Emphasis is substituted before code: markers inside a fence are
    rewritten too. *)
Example format_fence_with_markers :
  formatMessageText (js "```a**b**c```") = js "<pre><code>a<b>b</b>c</code></pre>".
Proof. by vm_compute. Qed.

(** List markers count at the start of a line only; a blank line becomes
    two breaks. *)
Example format_list_and_breaks :
  formatMessageText ([c_dash; c_space] ++ js "a - b" ++ [c_nl; c_nl] ++ js "c"
                     ++ [c_nl; c_dash; c_space] ++ js "d")
  = [bullet_glyph; c_space] ++ js "a - b<br><br>c<br>" ++ [bullet_glyph; c_space]
    ++ js "d".
Proof. by vm_compute. Qed.

(** A bold marker does not reach over a line end; the stars are then
    paired off as italics. *)
Example format_bold_across_lines :
  formatMessageText (js "**a" ++ [c_nl] ++ js "b**") = js "<i></i>a<br>b<i></i>".
Proof. by vm_compute. Qed.

(** The seven substitutions of [formatMessageText], in the order the
    source chains them. *)
Lemma formatMessageText_chain text :
  formatMessageText text =
  replace line_break (replace blank_line (replace bullet (replace code
    (replace fence (replace italic (replace bold (escapeHtml text))))))).
Proof. by destruct text. Qed.

Lemma formatMessageText_tagged text : tagged (formatMessageText text).
Proof.
  rewrite formatMessageText_chain.
  apply replace_tagged; [apply line_break_tag_safe|].
  apply replace_tagged; [apply blank_line_tag_safe|].
  apply replace_tagged; [apply bullet_tag_safe|].
  apply replace_tagged; [apply code_tag_safe|].
  apply replace_tagged; [apply fence_tag_safe|].
  apply replace_tagged; [apply italic_tag_safe|].
  apply replace_tagged; [apply bold_tag_safe|].
  apply escapeHtml_tagged.
Qed.

End RenderFacts.

(** ** The conversation *)

Module SessionFacts.

Ltac run_M :=
  unfold sendMessage, sendMessage_begin, sendMessage_resume,
    sendMessage_catch, addMessageToUI,
    newConversation, fetch, alert, console_error, deliver, to_text, await,
    when, try_catch, throw, lift, get, modify, mbind, mret, M_bind, M_ret;
  simpl.

Lemma bubbles_app a b : bubbles (a ++ b) = bubbles a ++ bubbles b.
Proof. unfold bubbles. apply flat_map_app. Qed.

Lemma bubbles_cleared children : bubbles (cleared children) = bubbles children.
Proof. by destruct children as [|[|m] [|n children]]. Qed.

(** [addMessageToUI] with a text that renders appends one bubble. *)
Lemma addMessageToUI_appends r text w children :
  messagesContainer w = Some children -> renders text = true ->
  addMessageToUI r text w =
    (Ok tt, set_messagesContainer
              (Some (cleared children ++ [Bubble {| msg_role := r; msg_text := text |}])) w).
Proof. intros Hc Hr. run_M. rewrite Hc. simpl. by rewrite Hr. Qed.

Lemma addMessageToUI_throws r text w children :
  messagesContainer w = Some children -> renders text = false ->
  addMessageToUI r text w =
    (Throw TypeErr, set_messagesContainer (Some (cleared children)) w).
Proof. intros Hc Hr. run_M. rewrite Hc. simpl. by rewrite Hr. Qed.

Lemma messages_set_container children w :
  messages (set_messagesContainer (Some children) w) = bubbles children.
Proof. reflexivity. Qed.

Example trim_both_ends : trim (js "  a b  ") = js "a b".
Proof. by vm_compute. Qed.

(** A reply whose [response] cannot be turned into text ends in the
    [catch] block, after the id has been taken. *)
Example reply_that_does_not_render :
  let body := JObj [(js "conversation_id", JStr (js "c1"));
                    (js "response", JObj [(js "toString", JNum 1)])] in
  let w := (sendMessage (reply 200 body) (set_chatInput (Some (js "hi")) fresh)).2 in
  messages w = [user_says (js "hi"); assistant_says (JStr failure_text)] /\
  currentConversationId w = JStr (js "c1").
Proof. by vm_compute. Qed.

(** A 2xx reply with the body [null] ends in the [catch] block. *)
Example reply_with_null_body :
  messages (sendMessage (reply 200 JNull) (set_chatInput (Some (js "hi")) fresh)).2
  = [user_says (js "hi"); assistant_says (JStr failure_text)].
Proof. by vm_compute. Qed.

(** The state after the synchronous part of a send that goes out. *)
Lemma sendMessage_begin_sends w value children c m :
  chatInput w = Some value -> messagesContainer w = Some children ->
  trim value = c :: m ->
  sendMessage_begin w =
    (Ok Awaiting,
     set_effects
       (requests w ++ [PostChat (c :: m) (js_or (currentConversationId w) JNull)])
       (alerts w) (downloads w) (console w)
       (set_messagesContainer
          (Some (cleared children ++ [Bubble (user_says (c :: m))]))
          (set_chatInput (Some []) w))).
Proof.
  intros Hi Hc Ht. run_M. rewrite Hi, Ht. simpl. rewrite Hc. reflexivity.
Qed.

Lemma sendMessage_catch_shows e w children :
  messagesContainer w = Some children ->
  sendMessage_catch e w =
    (Ok tt,
     set_messagesContainer
       (Some (cleared children ++ [Bubble (assistant_says (JStr failure_text))]))
       (set_effects (requests w) (alerts w) (downloads w)
          (console w ++ [(js "Chat error:", e)]) w)).
Proof. intros Hc. run_M. by rewrite Hc. Qed.

Lemma classic_outcome (o : fetch_outcome) :
  request_failed o \/ exists res, o = Ok res /\ ok res = true.
Proof.
  destruct o as [res|e]; simpl; [|by left].
  destruct (ok res) eqn:E; [right; eauto|by left].
Qed.

Lemma sendMessage_resume_failed o w :
  request_failed o -> exists e, sendMessage_resume o w = sendMessage_catch e w.
Proof.
  destruct o as [res|e]; simpl; intros H.
  - unfold sendMessage_resume, sendMessage_catch.
    unfold try_catch, await, lift, to_text, throw, mbind, M_bind, mret, M_ret.
    rewrite H. simpl.
    destruct (truthy (json_or_empty res)) eqn:Ht.
    + assert (exists d, get_prop (json_or_empty res) (js "detail") = Ok d) as [d ->].
      { destruct (json_or_empty res); simpl in *; eauto; discriminate. }
      destruct (stringifiable _); eauto.
    + simpl. eauto.
  - exists e. reflexivity.
Qed.

(** The state after a 2xx response whose body gives up its
    [conversation_id]. *)
Lemma sendMessage_resume_ok res w children cid resp :
  ok res = true ->
  get_prop (json_or_empty res) (js "conversation_id") = Ok cid ->
  get_prop (json_or_empty res) (js "response") = Ok resp ->
  messagesContainer w = Some children ->
  let w1 := if truthy cid then set_currentConversationId cid w else w in
  let text := js_or resp (JStr empty_response) in
  sendMessage_resume (Ok res) w =
    if renders text
    then (Ok tt, set_messagesContainer
                   (Some (cleared children ++ [Bubble (assistant_says text)])) w1)
    else sendMessage_catch TypeErr
           (set_messagesContainer (Some (cleared children)) w1).
Proof.
  intros Hok Hcid Hresp Hc. run_M. rewrite Hok. simpl.
  rewrite Hcid. simpl. rewrite Hresp.
  destruct (truthy cid); simpl; rewrite Hc; simpl;
    destruct (renders _); reflexivity.
Qed.

(** A body that is not [null] answers both property reads. *)
Lemma get_prop_both data k cid k' :
  get_prop data k = Ok cid -> exists resp, get_prop data k' = Ok resp.
Proof. destruct data; simpl; intros; eauto; discriminate. Qed.

Lemma trim_start_blank s : forallb trim_space s = true -> trim_start s = [].
Proof.
  induction s as [|c s IH]; simpl; [done|].
  intros [Hc Hs]%andb_true_iff. rewrite Hc. auto.
Qed.

(** A string of white space only trims to the empty string. *)
Lemma trim_blank s : forallb trim_space s = true -> trim s = [].
Proof. intros H. unfold trim. by rewrite (trim_start_blank s H). Qed.

Lemma sendMessage_blank w value o :
  chatInput w = Some value -> trim value = [] ->
  sendMessage_begin w = (Ok Done, w) /\ sendMessage o w = (Ok tt, w).
Proof.
  intros Hi Ht.
  assert (sendMessage_begin w = (Ok Done, w)) as Hb.
  { run_M. by rewrite Hi, Ht. }
  split; [done|]. unfold sendMessage, mbind, M_bind. by rewrite Hb.
Qed.

(** C6: with an input that is empty after trimming, [sendMessage] returns
    at once and leaves everything as it was (no message, no request, the
    input field untouched); taken as an event of the page, it changes
    neither the page nor the requests in flight. *)
Theorem blank_send_is_noop w value ts o :
  chatInput w = Some value -> trim value = [] ->
  sendMessage_begin w = (Ok Done, w) /\
  sendMessage o w = (Ok tt, w) /\
  handle ClickSend {| now := w; outstanding := ts |}
    = {| now := w; outstanding := ts |}.
Proof.
  intros Hi Ht. destruct (sendMessage_blank w value o Hi Ht) as [Hb Hs].
  split; [done|]. split; [done|].
  simpl. unfold call. simpl. by rewrite Hb.
Qed.

Lemma blank_send_is_noop_witness :
  sendMessage_begin (set_chatInput (Some (js "   ")) fresh)
    = (Ok Done, set_chatInput (Some (js "   ")) fresh).
Proof.
  apply (blank_send_is_noop (set_chatInput (Some (js "   ")) fresh) (js "   ")
           [] unreachable); reflexivity.
Defined.

(** The reply never makes [sendMessage] throw. *)
Lemma sendMessage_resume_returns o w : (sendMessage_resume o w).1 = Ok tt.
Proof.
  run_M. destruct o as [res|e]; simpl.
  2: { destruct (messagesContainer w); reflexivity. }
  destruct (ok res); simpl.
  - destruct (get_prop (json_or_empty res) (js "conversation_id")) as [cid|e] eqn:E;
      simpl.
    2: { destruct (messagesContainer w); reflexivity. }
    destruct (get_prop_both _ _ _ (js "response") E) as [resp ->].
    destruct (truthy cid); simpl;
      destruct (messagesContainer w); simpl; try reflexivity;
      destruct (renders _); reflexivity.
  - destruct (truthy (json_or_empty res)); simpl.
    + destruct (get_prop (json_or_empty res) (js "detail")); simpl;
        [destruct (stringifiable _); simpl|];
        destruct (messagesContainer w); reflexivity.
    + destruct (messagesContainer w); reflexivity.
Qed.

(** What the reply does to the conversation: one assistant bubble, and
    nothing else of the conversation moves. *)
Lemma sendMessage_resume_appends o w children :
  messagesContainer w = Some children ->
  exists t, messages (sendMessage_resume o w).2
            = messages w ++ [assistant_says t].
Proof.
  intros Hc. unfold messages at 2. rewrite Hc.
  destruct (classic_outcome o) as [Hf|(res & -> & Hok)].
  - destruct (sendMessage_resume_failed o w Hf) as [e ->].
    rewrite (sendMessage_catch_shows e w children Hc). simpl.
    exists (JStr failure_text).
    by rewrite messages_set_container, bubbles_app, bubbles_cleared.
  - destruct (get_prop (json_or_empty res) (js "conversation_id")) as [cid|e] eqn:E.
    + destruct (get_prop_both _ _ _ (js "response") E) as [resp Hr].
      rewrite (sendMessage_resume_ok res w children cid resp Hok E Hr Hc).
      destruct (renders _).
      * eexists. simpl.
        by rewrite messages_set_container, bubbles_app, bubbles_cleared.
      * erewrite sendMessage_catch_shows by reflexivity.
        exists (JStr failure_text). simpl.
        rewrite messages_set_container, bubbles_app, bubbles_cleared.
        destruct children as [|[|?] [|? ?]]; reflexivity.
    + exists (JStr failure_text).
      assert (sendMessage_resume (Ok res) w = sendMessage_catch e w) as ->.
      { run_M. rewrite Hok. simpl. by rewrite E. }
      rewrite (sendMessage_catch_shows e w children Hc). simpl.
      by rewrite messages_set_container, bubbles_app, bubbles_cleared.
Qed.

(** The synchronous part of a send that goes out, field by field. *)
Lemma sendMessage_begin_fields w value children :
  chatInput w = Some value -> messagesContainer w = Some children ->
  trim value <> [] ->
  let w1 := (sendMessage_begin w).2 in
  (sendMessage_begin w).1 = Ok Awaiting /\
  messagesContainer w1
    = Some (cleared children ++ [Bubble (user_says (trim value))]) /\
  messages w1 = messages w ++ [user_says (trim value)] /\
  requests w1
    = requests w ++ [PostChat (trim value) (js_or (currentConversationId w) JNull)] /\
  currentConversationId w1 = currentConversationId w /\
  chatInput w1 = Some [].
Proof.
  intros Hi Hc Ht. destruct (trim value) as [|c m] eqn:E; [done|].
  rewrite (sendMessage_begin_sends w value children c m Hi Hc E).
  cbv zeta. cbn [fst snd]. repeat split; try done.
  unfold messages. simpl. by rewrite Hc, bubbles_app, bubbles_cleared.
Qed.

Lemma sendMessage_split w value children o :
  chatInput w = Some value -> messagesContainer w = Some children ->
  trim value <> [] ->
  sendMessage o w = sendMessage_resume o (sendMessage_begin w).2.
Proof.
  intros Hi Hc Ht. destruct (trim value) as [|c m] eqn:E; [done|].
  unfold sendMessage, mbind, M_bind.
  by rewrite (sendMessage_begin_sends w value children c m Hi Hc E).
Qed.

(** C7: a send with non-empty trimmed input [m] shows the user's message
    before the request settles: when [sendMessage] reaches its [await], the
    conversation has grown by exactly one user entry with text [m], the
    request is out, and whatever the request then comes to, that entry
    stays where it is, followed by the assistant's. *)
Theorem send_shows_user_message_first w value children :
  chatInput w = Some value -> messagesContainer w = Some children ->
  trim value <> [] ->
  (sendMessage_begin w).1 = Ok Awaiting /\
  messages (sendMessage_begin w).2 = messages w ++ [user_says (trim value)] /\
  requests (sendMessage_begin w).2
    = requests w ++ [PostChat (trim value) (js_or (currentConversationId w) JNull)] /\
  forall o, exists t,
    messages (sendMessage_resume o (sendMessage_begin w).2).2
      = messages w ++ [user_says (trim value); assistant_says t].
Proof.
  intros Hi Hc Ht.
  destruct (sendMessage_begin_fields w value children Hi Hc Ht)
    as (Hr & Hc1 & Hm & Hq & _ & _).
  repeat split; try done.
  intros o. destruct (sendMessage_resume_appends o _ _ Hc1) as [t Hres].
  exists t. rewrite Hres, Hm, <- app_assoc. reflexivity.
Qed.

Lemma send_shows_user_message_first_witness :
  messages (sendMessage_begin (set_chatInput (Some (js " hi ")) fresh)).2
    = [user_says (js "hi")].
Proof.
  apply (send_shows_user_message_first
           (set_chatInput (Some (js " hi ")) fresh) (js " hi ") [Placeholder]);
    [reflexivity | reflexivity | by vm_compute].
Defined.

(** The conversation after a whole send, by the kind of reply. *)
Lemma send_failed_messages w value children o :
  chatInput w = Some value -> messagesContainer w = Some children ->
  trim value <> [] -> request_failed o ->
  messages (sendMessage o w).2
    = messages w ++ [user_says (trim value); assistant_says (JStr failure_text)] /\
  currentConversationId (sendMessage o w).2 = currentConversationId w /\
  chatInput (sendMessage o w).2 = Some [].
Proof.
  intros Hi Hc Ht Hf.
  destruct (sendMessage_begin_fields w value children Hi Hc Ht)
    as (_ & Hc1 & Hm & _ & Hid & Hin).
  rewrite (sendMessage_split w value children o Hi Hc Ht).
  destruct (sendMessage_resume_failed o (sendMessage_begin w).2 Hf) as [e ->].
  rewrite (sendMessage_catch_shows e _ _ Hc1). cbn [fst snd].
  split; [|by split].
  rewrite messages_set_container, bubbles_app, <- bubbles_cleared.
  unfold messages in Hm at 1. rewrite Hc1 in Hm.
  rewrite bubbles_cleared, bubbles_cleared, Hm, <- app_assoc. reflexivity.
Qed.

Lemma send_ok_messages w value children res cid resp :
  chatInput w = Some value -> messagesContainer w = Some children ->
  trim value <> [] -> ok res = true ->
  get_prop (json_or_empty res) (js "conversation_id") = Ok cid ->
  get_prop (json_or_empty res) (js "response") = Ok resp ->
  let text := js_or resp (JStr empty_response) in
  messages (sendMessage (Ok res) w).2
    = messages w ++ [user_says (trim value);
                     assistant_says (if renders text then text else JStr failure_text)] /\
  currentConversationId (sendMessage (Ok res) w).2
    = if truthy cid then cid else currentConversationId w.
Proof.
  intros Hi Hc Ht Hok Hcid Hresp text.
  destruct (sendMessage_begin_fields w value children Hi Hc Ht)
    as (_ & Hc1 & Hm & _ & Hid & _).
  rewrite (sendMessage_split w value children (Ok res) Hi Hc Ht).
  rewrite (sendMessage_resume_ok res _ _ cid resp Hok Hcid Hresp Hc1).
  unfold messages in Hm at 1. rewrite Hc1 in Hm. fold text.
  destruct (renders text).
  - cbn [fst snd]. rewrite messages_set_container, bubbles_app, bubbles_cleared.
    rewrite Hm, <- app_assoc. split; [done|].
    destruct (truthy cid); simpl; [done|exact Hid].
  - erewrite sendMessage_catch_shows by reflexivity. cbn [fst snd].
    rewrite messages_set_container, bubbles_app, !bubbles_cleared.
    rewrite Hm, <- app_assoc. split; [done|].
    destruct (truthy cid); simpl; [done|exact Hid].
Qed.






(** C4, as the code has it: when the request fails (the promise of [fetch]
    rejects, or the status is not 2xx, whatever the body), the user's
    message stays, exactly one assistant message with the fixed failure
    text follows it, the conversation id is left alone, nothing is thrown,
    and the next send goes out as usual.  A 2xx reply whose body does not
    parse is not such a failure: its body counts as [{}], so the
    placeholder ["(empty response)"] is shown; the id is left alone there
    too. *)
Theorem failed_send_explains_and_keeps_session w value children o :
  chatInput w = Some value -> messagesContainer w = Some children ->
  trim value <> [] ->
  (request_failed o ->
   messages (sendMessage o w).2
     = messages w ++ [user_says (trim value); assistant_says (JStr failure_text)] /\
   currentConversationId (sendMessage o w).2 = currentConversationId w /\
   (sendMessage o w).1 = Ok tt /\
   forall value', trim value' <> [] ->
     let w' := set_chatInput (Some value') (sendMessage o w).2 in
     (sendMessage_begin w').1 = Ok Awaiting /\
     messages (sendMessage_begin w').2
       = messages (sendMessage o w).2 ++ [user_says (trim value')] /\
     requests (sendMessage_begin w').2
       = requests (sendMessage o w).2
         ++ [PostChat (trim value') (js_or (currentConversationId w) JNull)]) /\
  (forall res e,
      o = Ok res -> ok res = true -> json res = Throw e ->
      messages (sendMessage o w).2
        = messages w ++ [user_says (trim value);
                         assistant_says (JStr empty_response)] /\
      currentConversationId (sendMessage o w).2 = currentConversationId w).
Proof.
  intros Hi Hc Ht. split.
  - intros Hf.
    destruct (send_failed_messages w value children o Hi Hc Ht Hf)
      as (Hm & Hid & Hin).
    split; [done|]. split; [done|]. split.
    { rewrite (sendMessage_split w value children o Hi Hc Ht).
      apply sendMessage_resume_returns. }
    intros value' Ht' w'.
    assert (exists children', messagesContainer (sendMessage o w).2 = Some children')
      as [children' Hc'].
    { rewrite (sendMessage_split w value children o Hi Hc Ht).
      destruct (sendMessage_begin_fields w value children Hi Hc Ht)
        as (_ & Hc1 & _).
      destruct (sendMessage_resume_failed o (sendMessage_begin w).2 Hf) as [e ->].
      rewrite (sendMessage_catch_shows e _ _ Hc1). simpl. eauto. }
    destruct (sendMessage_begin_fields w' value' children' eq_refl Hc' Ht')
      as (Hr & _ & Hm' & Hq' & _).
    split; [done|]. split; [exact Hm'|].
    rewrite Hq'. subst w'. simpl. by rewrite Hid.
  - intros res e -> Hok Hjson.
    assert (json_or_empty res = JObj []) as Hdata.
    { unfold json_or_empty. by rewrite Hjson. }
    apply (send_ok_messages w value children res JUndefined JUndefined
             Hi Hc Ht Hok); by rewrite Hdata.
Qed.

Lemma failed_send_explains_and_keeps_session_witness :
  messages (sendMessage unreachable (set_chatInput (Some (js "hi")) fresh)).2
    = [user_says (js "hi"); assistant_says (JStr failure_text)].
Proof.
  destruct (failed_send_explains_and_keeps_session
              (set_chatInput (Some (js "hi")) fresh) (js "hi") [Placeholder]
              unreachable eq_refl eq_refl ltac:(by vm_compute)) as [H _].
  apply (H I).
Defined.

(** C4 as written fails on a 2xx reply with an unreadable body: the send
    does not append the failure text but the placeholder. *)
Lemma unreadable_reply_is_shown_as_empty :
  messages (sendMessage (unreadable 200) (set_chatInput (Some (js "hi")) fresh)).2
    = [user_says (js "hi"); assistant_says (JStr empty_response)] /\
  JStr empty_response <> JStr failure_text.
Proof. split; [by vm_compute|discriminate]. Qed.

(** C1, as the code has it: on a 2xx reply the conversation id becomes the
    reply's [conversation_id] whenever that is truthy, whether or not an id
    was held before, and stays as it was otherwise. *)
Theorem successful_send_takes_reply_id w res cid :
  ok res = true ->
  get_prop (json_or_empty res) (js "conversation_id") = Ok cid ->
  currentConversationId (sendMessage_resume (Ok res) w).2
    = if truthy cid then cid else currentConversationId w.
Proof.
  intros Hok Hcid.
  destruct (get_prop_both _ _ _ (js "response") Hcid) as [resp Hr].
  destruct (messagesContainer w) as [children|] eqn:Hc.
  - rewrite (sendMessage_resume_ok res w children cid resp Hok Hcid Hr Hc).
    destruct (renders _).
    + simpl. by destruct (truthy cid).
    + erewrite sendMessage_catch_shows by reflexivity. simpl.
      by destruct (truthy cid).
  - run_M. rewrite Hok. simpl. rewrite Hcid. simpl. rewrite Hr.
    destruct (truthy cid); simpl; by rewrite Hc.
Qed.

Lemma successful_send_takes_reply_id_witness :
  currentConversationId
    (sendMessage_resume (reply 200 (chat_reply (js "hello") (js "c1"))) fresh).2
  = JStr (js "c1").
Proof.
  apply (successful_send_takes_reply_id fresh
           {| status := 200; json := Ok (chat_reply (js "hello") (js "c1"));
              blob := Ok [] |} (JStr (js "c1")) eq_refl eq_refl).
Defined.

(** C1 as written fails: the first reply establishes the id, a later reply
    with another id replaces it. *)
Lemma later_reply_replaces_id :
  let c := run [Edit (js "hi"); ClickSend;
                Settle 0 (reply 200 (chat_reply (js "hello") (js "c1")));
                Edit (js "again"); ClickSend] (page fresh) in
  currentConversationId (now c) = JStr (js "c1") /\
  currentConversationId
    (now (handle (Settle 0 (reply 200 (chat_reply (js "back") (js "c2")))) c))
  = JStr (js "c2") /\
  JStr (js "c1") <> JStr (js "c2").
Proof. split; [by vm_compute|]. split; [by vm_compute|discriminate]. Qed.

(** C2, as the code has it: [sendMessage] has no busy guard.  With a send
    outstanding, a second send with non-empty trimmed input goes ahead like
    the first: it appends its user message, issues its own request, and is
    then outstanding next to the first. *)
Theorem second_send_is_not_held_back c value children :
  ParkedSend ∈ outstanding c ->
  chatInput (now c) = Some value -> messagesContainer (now c) = Some children ->
  trim value <> [] ->
  messages (now (handle ClickSend c))
    = messages (now c) ++ [user_says (trim value)] /\
  requests (now (handle ClickSend c))
    = requests (now c)
      ++ [PostChat (trim value) (js_or (currentConversationId (now c)) JNull)] /\
  outstanding (handle ClickSend c) = outstanding c ++ [ParkedSend].
Proof.
  intros _ Hi Hc Ht.
  destruct (sendMessage_begin_fields (now c) value children Hi Hc Ht)
    as (Hr & _ & Hm & Hq & _).
  simpl. unfold call.
  destruct (sendMessage_begin (now c)) as [r w1]. simpl in *. subst r.
  simpl. done.
Qed.

Lemma second_send_is_not_held_back_witness :
  let c := run [Edit (js "one"); ClickSend; Edit (js "two")] (page fresh) in
  outstanding (handle ClickSend c) = [ParkedSend; ParkedSend].
Proof.
  apply (second_send_is_not_held_back
           (run [Edit (js "one"); ClickSend; Edit (js "two")] (page fresh))
           (js "two") [Bubble (user_says (js "one"))]);
    [by vm_compute; set_solver | reflexivity | reflexivity | by vm_compute].
Defined.

(** C2 as written fails: a second send issued while the first is
    outstanding appends its message and issues its request, and the two
    replies may come back in either order. *)
Lemma second_send_while_first_outstanding :
  let c1 := run [Edit (js "one"); ClickSend] (page fresh) in
  let c2 := run [Edit (js "two"); ClickSend] c1 in
  let c3 := run [Settle 1 (reply 200 (chat_reply (js "to two") (js "c")));
                 Settle 0 (reply 200 (chat_reply (js "to one") (js "c")))] c2 in
  outstanding c1 = [ParkedSend] /\
  messages (now c1) = [user_says (js "one")] /\
  messages (now c2) = [user_says (js "one"); user_says (js "two")] /\
  requests (now c2) = [PostChat (js "one") JNull; PostChat (js "two") JNull] /\
  outstanding c2 = [ParkedSend; ParkedSend] /\
  messages (now c3)
    = [user_says (js "one"); user_says (js "two");
       assistant_says (JStr (js "to two")); assistant_says (JStr (js "to one"))].
Proof. by vm_compute. Qed.

End SessionFacts.

(** ** The status probe *)

Module StatusFacts.

Ltac run_probe :=
  unfold checkSystemStatus_resume, checkSystemStatus_begin, set_backendStatus,
    set_ragStatus, set_modelStatus, set_text, fetch, console_error, to_text,
    await, try_catch, throw, lift, get, modify, mbind, mret, M_bind, M_ret;
  simpl.

(** The [catch] block of the probe writes the offline texts. *)
Lemma probe_caught_offline w o b :
  backendStatus w = Some b -> probe_caught w o ->
  (checkSystemStatus_resume o w).1 = Ok tt /\
  backendStatus (checkSystemStatus_resume o w).2 = Some (JStr offline_text) /\
  (modelStatus w <> None ->
   modelStatus (checkSystemStatus_resume o w).2 = Some (JStr (js "-"))).
Proof.
  intros Hb H. destruct w; simpl in Hb, H; subst.
  run_probe. destruct o as [res|e]; simpl in *.
  - destruct (json res) as [data|e]; simpl.
    + destruct H as [Hm H]. destruct modelStatus0 as [m0|]; [|done].
      destruct (get_prop data (js "model")) as [m|e]; simpl.
      * rewrite H. destruct ragStatus0; done.
      * destruct ragStatus0; done.
    + destruct ragStatus0, modelStatus0; done.
  - destruct ragStatus0, modelStatus0; done.
Qed.

(** Short of that the probe writes the online text. *)
Lemma probe_passed_online w o b :
  backendStatus w = Some b -> ~ probe_caught w o ->
  (checkSystemStatus_resume o w).1 = Ok tt /\
  backendStatus (checkSystemStatus_resume o w).2 = Some (JStr online_text).
Proof.
  intros Hb H. destruct w; simpl in Hb, H; subst.
  run_probe. destruct o as [res|e]; simpl in *; [|done].
  destruct (json res) as [data|e]; simpl; [|done].
  destruct modelStatus0 as [m0|]; [|by destruct ragStatus0].
  destruct (get_prop data (js "model")) as [m|e]; simpl.
  - destruct (stringifiable _) eqn:Hs.
    + destruct ragStatus0; done.
    + exfalso. apply H. by split.
  - exfalso. apply H. by split.
Qed.

Lemma probe_caught_dec w o : probe_caught w o \/ ~ probe_caught w o.
Proof.
  destruct o as [res|e]; simpl; [|by left].
  destruct (json res) as [data|e]; [|by left].
  destruct (modelStatus w); [|right; by intros [? _]].
  destruct (get_prop data (js "model")); [|left; by split].
  destruct (stringifiable _); [right; by intros [_ ?]|left; by split].
Qed.

(** C3, as the code has it: the probe never throws, and with
    [#backendStatus] on the page it shows the offline text exactly when its
    [catch] block ran (the request did not arrive, the body did not parse,
    or the model field could not be read or shown) and the online text
    otherwise; the status of the response is not looked at. *)
Theorem probe_offline_iff_caught w o b :
  backendStatus w = Some b ->
  (checkSystemStatus_resume o w).1 = Ok tt /\
  (backendStatus (checkSystemStatus_resume o w).2 = Some (JStr offline_text)
   <-> probe_caught w o) /\
  (backendStatus (checkSystemStatus_resume o w).2 = Some (JStr online_text)
   <-> ~ probe_caught w o) /\
  (probe_caught w o -> modelStatus w <> None ->
   modelStatus (checkSystemStatus_resume o w).2 = Some (JStr (js "-"))) /\
  (forall res s,
      checkSystemStatus_resume (Ok (with_status s res)) w
      = checkSystemStatus_resume (Ok res) w).
Proof.
  intros Hb.
  assert (JStr online_text <> JStr offline_text) as Hne by discriminate.
  destruct (probe_caught_dec w o) as [H|H].
  - destruct (probe_caught_offline w o b Hb H) as (Hr & Hoff & Hmodel).
    split; [done|]. split; [done|]. split; [|split; [auto|done]].
    rewrite Hoff. split; [congruence|done].
  - destruct (probe_passed_online w o b Hb H) as (Hr & Hon).
    split; [done|]. split; [|split; [done|split; [done|done]]].
    rewrite Hon. split; [congruence|done].
Qed.

Lemma probe_offline_iff_caught_witness :
  backendStatus (checkSystemStatus_resume unreachable fresh).2
    = Some (JStr offline_text).
Proof.
  apply (probe_offline_iff_caught fresh unreachable (JStr []) eq_refl). exact I.
Defined.

(** C3 as written fails both ways: a non-2xx response with a JSON body is
    shown as online, and a 2xx response whose body does not parse is shown
    as offline. *)
Lemma probe_ignores_status :
  backendStatus (checkSystemStatus_resume (reply 503 (JObj [])) fresh).2
    = Some (JStr online_text) /\
  backendStatus (checkSystemStatus_resume (unreadable 200) fresh).2
    = Some (JStr offline_text) /\
  JStr online_text <> JStr offline_text.
Proof. split; [by vm_compute|]. split; [by vm_compute|discriminate]. Qed.

End StatusFacts.

(** ** Export *)

Module ExportFacts.

Ltac run_export :=
  unfold exportChat_begin, exportChat_resume, alerted, requested, fetch, alert,
    deliver, to_text, await, try_catch, throw, lift, get, modify, mbind, mret,
    M_bind, M_ret;
  simpl.

(** A failed export request ends in one alert and nothing else. *)
Lemma exportChat_resume_failed o w :
  request_failed o ->
  exists a, exportChat_resume o w = (Ok tt, alerted a w) /\
    match o with
    | Throw e => a = WithCause (js "Export failed: ") e
    | Ok _ => a = Plain (js "Failed to export chat.")
    end.
Proof.
  intros H. run_export. destruct o as [res|e]; simpl in *.
  - rewrite H. simpl. eauto.
  - eauto.
Qed.

(** C8: without a conversation id ([null], or any falsy value),
    [exportChat] alerts that there is nothing to export and issues no
    request; with an id (a non-empty
    string) it issues exactly one request, and when that request fails
    (the promise rejects, or the status is not 2xx) the only thing that
    follows is one alert: no file is delivered and no further request is
    made. *)
Theorem export_without_id_or_with_failure w o :
  (truthy (currentConversationId w) = false ->
   exportChat_begin w
     = (Ok Done, alerted (Plain (js "No conversation to export.")) w)) /\
  (forall c id,
      currentConversationId w = JStr (c :: id) -> request_failed o ->
      exportChat_begin w = (Ok Awaiting, requested (PostExport (JStr (c :: id))) w) /\
      exists a,
        exportChat_resume o (requested (PostExport (JStr (c :: id))) w)
          = (Ok tt, alerted a (requested (PostExport (JStr (c :: id))) w)) /\
        requests (alerted a (requested (PostExport (JStr (c :: id))) w))
          = requests w ++ [PostExport (JStr (c :: id))] /\
        downloads (alerted a (requested (PostExport (JStr (c :: id))) w))
          = downloads w).
Proof.
  split.
  - intros Hid. run_export. by rewrite Hid.
  - intros c id Hid Hf. split.
    + run_export. by rewrite Hid.
    + destruct (exportChat_resume_failed o
                  (requested (PostExport (JStr (c :: id))) w) Hf) as (a & -> & _).
      exists a. done.
Qed.

Lemma export_without_id_or_with_failure_witness :
  exportChat_begin fresh
    = (Ok Done, alerted (Plain (js "No conversation to export.")) fresh) /\
  exists a,
    exportChat_resume (reply 500 (JObj []))
      (requested (PostExport (JStr (js "c1")))
         (set_currentConversationId (JStr (js "c1")) fresh))
    = (Ok tt, alerted a (requested (PostExport (JStr (js "c1")))
                           (set_currentConversationId (JStr (js "c1")) fresh))).
Proof.
  split.
  - apply (export_without_id_or_with_failure fresh unreachable). reflexivity.
  - destruct (export_without_id_or_with_failure
                (set_currentConversationId (JStr (js "c1")) fresh)
                (reply 500 (JObj []))) as [_ H].
    destruct (H 99 [49] eq_refl eq_refl) as (_ & a & Ha & _).
    exists a. exact Ha.
Defined.

End ExportFacts.

(** ** Documents *)

Module DocumentFacts.

Ltac run_delete :=
  unfold deleteDocument_begin, deleteDocument_resume, renderDocuments, alerted,
    requested, fetch, alert, await, try_catch, throw, lift, get, modify, mbind,
    mret, M_bind, M_ret;
  simpl.

(** A failed delete request ends in one alert and nothing else. *)
Lemma deleteDocument_resume_failed doc_id o w :
  request_failed o ->
  exists e, deleteDocument_resume doc_id o w
            = (Ok tt, alerted (WithCause (js "Error deleting document: ") e) w).
Proof.
  intros H. run_delete. destruct o as [res|e]; simpl in *.
  - rewrite H. simpl. eauto.
  - eauto.
Qed.

(** After a 2xx response the entry is gone, whatever the redrawing of the
    list comes to. *)
Lemma deleteDocument_resume_ok doc_id res w :
  ok res = true ->
  (deleteDocument_resume doc_id (Ok res) w).1 = Ok tt /\
  documents (deleteDocument_resume doc_id (Ok res) w).2
    = delete doc_id (documents w).
Proof.
  intros H. run_delete. rewrite H. simpl.
  destruct (documentsList w); simpl; [|done].
  destruct (bool_decide _); simpl; [done|].
  destruct (bool_decide _); simpl; done.
Qed.

(** C9: [deleteDocument] asks for confirmation first; unconfirmed it does
    nothing at all.  Confirmed, it issues the DELETE request; when that
    fails (the promise rejects, or the status is not 2xx) the registry is
    as before and the error is shown in an alert, not thrown; on a 2xx
    response, and only then, the entry is removed from the registry. *)
Theorem delete_needs_confirmation_and_success w doc_id o :
  deleteDocument_begin doc_id false w = (Ok Done, w) /\
  deleteDocument_begin doc_id true w = (Ok Awaiting, requested (DeleteDoc doc_id) w) /\
  (request_failed o ->
   exists e,
     deleteDocument_resume doc_id o w
       = (Ok tt, alerted (WithCause (js "Error deleting document: ") e) w) /\
     documents (deleteDocument_resume doc_id o w).2 = documents w) /\
  (forall res,
      o = Ok res -> ok res = true ->
      (deleteDocument_resume doc_id o w).1 = Ok tt /\
      documents (deleteDocument_resume doc_id o w).2 = delete doc_id (documents w) /\
      documents (deleteDocument_resume doc_id o w).2 !! doc_id = None /\
      forall other, other <> doc_id ->
        documents (deleteDocument_resume doc_id o w).2 !! other
          = documents w !! other) /\
  (documents w !! doc_id = None ->
   documents (deleteDocument_resume doc_id o w).2 = documents w).
Proof.
  split; [done|]. split; [done|]. split; [|split].
  - intros Hf. destruct (deleteDocument_resume_failed doc_id o w Hf) as [e He].
    exists e. split; [done|]. by rewrite He.
  - intros res -> Hok.
    destruct (deleteDocument_resume_ok doc_id res w Hok) as [Hr Hd].
    split; [done|]. split; [done|]. rewrite Hd. split.
    + apply lookup_delete_eq.
    + intros other Hne. by apply lookup_delete_ne.
  - intros Hnone. destruct (SessionFacts.classic_outcome o) as [Hf|(res & -> & Hok)].
    + destruct (deleteDocument_resume_failed doc_id o w Hf) as [e ->]. done.
    + destruct (deleteDocument_resume_ok doc_id res w Hok) as [_ ->].
      by apply delete_id.
Qed.

Lemma delete_needs_confirmation_and_success_witness :
  let w := set_documents {[ js "d1" := JObj [(js "filename", JStr (js "report.pdf"))] ]} fresh in
  documents (deleteDocument_resume (js "d1") (reply 500 (JObj [])) w).2 = documents w /\
  documents (deleteDocument_resume (js "d1") (reply 204 JNull) w).2 !! js "d1" = None.
Proof.
  intros w. split.
  - destruct (delete_needs_confirmation_and_success w (js "d1") (reply 500 (JObj [])))
      as (_ & _ & H & _).
    destruct (H eq_refl) as (e & _ & Hd). exact Hd.
  - destruct (delete_needs_confirmation_and_success w (js "d1") (reply 204 JNull))
      as (_ & _ & _ & H & _).
    destruct (H _ eq_refl eq_refl) as (_ & _ & Hd & _). exact Hd.
Defined.

End DocumentFacts.

(** ** More on the text renderer *)

Module RenderExtra.
Import Render RenderFacts.

Lemma escape_unit_cases c :
  (c = c_amp /\ escape_unit c = js "&amp;") \/
  (c = c_nbsp /\ escape_unit c = js "&nbsp;") \/
  (c = c_lt /\ escape_unit c = js "&lt;") \/
  (c = c_gt /\ escape_unit c = js "&gt;") \/
  (c <> c_amp /\ c <> c_nbsp /\ c <> c_lt /\ c <> c_gt /\ escape_unit c = [c]).
Proof.
  unfold escape_unit.
  destruct (N.eqb_spec c c_amp) as [->|]; [auto|].
  destruct (N.eqb_spec c c_nbsp) as [->|]; [auto|].
  destruct (N.eqb_spec c c_lt) as [->|]; [auto 6|].
  destruct (N.eqb_spec c c_gt) as [->|]; [auto 6|].
  do 4 right. auto.
Qed.

(** The escapes of two code units never overlap at the head of a string. *)
Lemma escape_unit_cancel x y (a b : jstring) :
  escape_unit x ++ a = escape_unit y ++ b -> x = y /\ a = b.
Proof.
  destruct (escape_unit_cases x) as [[-> ->]|[[-> ->]|[[-> ->]|[[-> ->]|(?&?&?&?&->)]]]];
  destruct (escape_unit_cases y) as [[-> ->]|[[-> ->]|[[-> ->]|[[-> ->]|(?&?&?&?&->)]]]];
    vm_compute (js _); simpl; intros [=]; subst; try done.
Qed.

(** X1: [escapeHtml] loses nothing: two strings with the same escaped
    form are the same string. *)
Theorem escapeHtml_injective (a b : jstring) :
  escapeHtml a = escapeHtml b -> a = b.
Proof.
  revert b; induction a as [|x a IH]; intros [|y b]; simpl; try done.
  - destruct (escape_unit_cases y) as [[-> ->]|[[-> ->]|[[-> ->]|[[-> ->]|(?&?&?&?&->)]]]];
      discriminate.
  - destruct (escape_unit_cases x) as [[-> ->]|[[-> ->]|[[-> ->]|[[-> ->]|(?&?&?&?&->)]]]];
      discriminate.
  - intros [-> H]%escape_unit_cancel. f_equal. by apply IH.
Qed.

Lemma escapeHtml_injective_witness :
  js "a<b" = js "a<b".
Proof. apply (escapeHtml_injective (js "a<b") (js "a<b")). reflexivity. Defined.

Lemma strip_prefix_other_head d p c s :
  c <> d -> strip_prefix (d :: p) (c :: s) = None.
Proof. intros H. simpl. by destruct (N.eqb_spec d c); [congruence|]. Qed.

(** A pattern that can only start at the unit [d] leaves a string without
    [d] as it is. *)
Lemma replace_from_quiet m d :
  (forall prev c s, c <> d -> m prev (c :: s) = None) ->
  forall fuel prev s, d ∉ s -> replace_from fuel m prev s = s.
Proof.
  intros Hm fuel; induction fuel as [|fuel IH]; intros prev s Hd; [done|].
  destruct s as [|c s]; [done|]. simpl.
  apply not_elem_of_cons in Hd as [Hc Hs].
  rewrite (Hm prev c s) by done. f_equal. by apply IH.
Qed.

Lemma bold_starts_with_star prev c s : c <> c_star -> bold prev (c :: s) = None.
Proof.
  intros H. unfold bold. change (js "**") with [c_star; c_star].
  by rewrite strip_prefix_other_head.
Qed.

Lemma italic_starts_with_star prev c s : c <> c_star -> italic prev (c :: s) = None.
Proof.
  intros H. unfold italic. change (js "*") with [c_star].
  by rewrite strip_prefix_other_head.
Qed.

Lemma fence_starts_with_tick prev c s : c <> c_tick -> fence prev (c :: s) = None.
Proof.
  intros H. unfold fence. change (js "```") with [c_tick; c_tick; c_tick].
  by rewrite strip_prefix_other_head.
Qed.

Lemma code_starts_with_tick prev c s : c <> c_tick -> code prev (c :: s) = None.
Proof.
  intros H. unfold code. change (js "`") with [c_tick].
  by rewrite strip_prefix_other_head.
Qed.

Lemma blank_line_starts_with_nl prev c s : c <> c_nl -> blank_line prev (c :: s) = None.
Proof. intros H. unfold blank_line. by rewrite strip_prefix_other_head. Qed.

Lemma line_break_starts_with_nl prev c s : c <> c_nl -> line_break prev (c :: s) = None.
Proof. intros H. unfold line_break. by rewrite strip_prefix_other_head. Qed.

(** The list marker needs a line start: on one line that does not begin
    with a dash and a space nothing is replaced. *)
Lemma replace_from_bullet_quiet fuel prev s :
  Forall (fun c => line_terminator c = false) s ->
  at_line_start prev = false \/ strip_prefix (js "- ") s = None ->
  replace_from fuel bullet prev s = s.
Proof.
  revert prev s; induction fuel as [|fuel IH]; intros prev s Hs Hstart; [done|].
  destruct s as [|c s]; [done|]. simpl.
  apply Forall_cons_1 in Hs as [Hc Hs].
  assert (bullet prev (c :: s) = None) as ->.
  { unfold bullet. destruct Hstart as [->| ->]; [done|].
    by destruct (at_line_start prev). }
  f_equal. apply IH; [done|]. left. exact Hc.
Qed.

Lemma plain_spec c :
  plain c = true ->
  c <> c_amp /\ c <> c_nbsp /\ c <> c_lt /\ c <> c_gt /\ c <> c_star /\
  c <> c_tick /\ line_terminator c = false.
Proof.
  unfold plain. rewrite negb_true_iff, !orb_false_iff, !N.eqb_neq. tauto.
Qed.

Lemma escapeHtml_plain text : forallb plain text = true -> escapeHtml text = text.
Proof.
  induction text as [|c text IH]; simpl; [done|].
  intros [Hc Ht]%andb_true_iff. rewrite (IH Ht).
  destruct (plain_spec c Hc) as (?&?&?&?&_).
  destruct (escape_unit_cases c) as [[? _]|[[? _]|[[? _]|[[? _]|(_&_&_&_&->)]]]];
    done.
Qed.

Lemma plain_without text d :
  plain d = false -> forallb plain text = true -> d ∉ text.
Proof.
  intros Hd Ht Hin. rewrite forallb_forall in Ht.
  apply list_elem_of_In, Ht in Hin. congruence.
Qed.

(** X2: text made of plain code units, not beginning with a dash and a
    space, is rendered as it is. *)
Theorem formatMessageText_plain text :
  forallb plain text = true -> strip_prefix (js "- ") text = None ->
  formatMessageText text = text.
Proof.
  intros Hp Hd. rewrite formatMessageText_chain, (escapeHtml_plain text Hp).
  unfold replace.
  rewrite (replace_from_quiet bold c_star bold_starts_with_star)
    by by apply plain_without.
  rewrite (replace_from_quiet italic c_star italic_starts_with_star)
    by by apply plain_without.
  rewrite (replace_from_quiet fence c_tick fence_starts_with_tick)
    by by apply plain_without.
  rewrite (replace_from_quiet code c_tick code_starts_with_tick)
    by by apply plain_without.
  rewrite replace_from_bullet_quiet.
  - rewrite (replace_from_quiet blank_line c_nl blank_line_starts_with_nl)
      by by apply plain_without.
    by rewrite (replace_from_quiet line_break c_nl line_break_starts_with_nl)
      by by apply plain_without.
  - apply Forall_forall. intros c Hc.
    rewrite forallb_forall in Hp. apply list_elem_of_In, Hp in Hc.
    by destruct (plain_spec c Hc) as (_&_&_&_&_&_&?).
  - by right.
Qed.

Lemma formatMessageText_plain_witness :
  formatMessageText (js "2 - 1 = 1, ok?") = js "2 - 1 = 1, ok?".
Proof. apply formatMessageText_plain; reflexivity. Defined.

Lemma replace_from_step fuel m prev c s :
  replace_from (S fuel) m prev (c :: s) =
  match m prev (c :: s) with
  | Some (out, rest) =>
      out ++ replace_from fuel m (last_consumed (c :: s) rest) rest
  | None => c :: replace_from fuel m (Some c) s
  end.
Proof. reflexivity. Qed.

Lemma line_break_at prev c s :
  line_break prev (c :: s) = if c_nl =? c then Some (js "<br>", s) else None.
Proof.
  unfold line_break.
  change (strip_prefix [c_nl] (c :: s)) with (if c_nl =? c then Some s else None).
  by destruct (c_nl =? c).
Qed.

Lemma no_nl_in_br : c_nl ∉ js "<br>".
Proof. intros H%list_elem_of_In. vm_compute in H. intuition discriminate. Qed.

(** Every line feed is replaced by the last substitution. *)
Lemma replace_from_line_break_no_nl fuel prev s :
  (length s <= fuel)%nat -> c_nl ∉ replace_from fuel line_break prev s.
Proof.
  revert prev s; induction fuel as [|fuel IH]; intros prev s Hlen.
  - destruct s; [apply not_elem_of_nil|simpl in Hlen; lia].
  - destruct s as [|c s]; [apply not_elem_of_nil|].
    simpl in Hlen. rewrite replace_from_step, line_break_at.
    destruct (N.eqb_spec c_nl c) as [<-|Hc].
    + rewrite elem_of_app. intros [Hin|Hin]; [by apply no_nl_in_br|].
      revert Hin. apply IH. lia.
    + apply not_elem_of_cons. split; [done|]. apply IH. lia.
Qed.

(** X3: the output of [formatMessageText] holds no line feed. *)
Theorem formatMessageText_no_line_feed text : c_nl ∉ formatMessageText text.
Proof.
  rewrite formatMessageText_chain. by apply replace_from_line_break_no_nl.
Qed.

(** *** Bold markers and inline code around plain text *)

Lemma scan_prev m :
  (forall p p' s, m p s = m p' s) ->
  forall p p' s out, scan m p s out -> scan m p' s out.
Proof.
  intros Hm p p' s out H; revert p'.
  induction H as [p|p c s out rest out' Hhit _ IH|p c s out' Hmiss _ IH]; intros p'.
  - constructor.
  - apply (scan_hit m p' c s out rest); [by rewrite (Hm p' p)|done].
  - apply scan_miss; [by rewrite (Hm p' p)|done].
Qed.

(** A stretch without the unit a pattern starts with is copied. *)
Lemma scan_copy m d :
  (forall p p' s, m p s = m p' s) ->
  (forall prev c s, c <> d -> m prev (c :: s) = None) ->
  forall p rest out,
    d ∉ p -> scan m None rest out -> scan m None (p ++ rest) (p ++ out).
Proof.
  intros Hins Hm p rest out Hd Hrest.
  induction p as [|c p IH]; [done|].
  apply not_elem_of_cons in Hd as [Hc Hp]. simpl.
  apply scan_miss; [by apply Hm|].
  apply (scan_prev m Hins None). by apply IH.
Qed.

Lemma scan_quiet m d s :
  (forall p p' s, m p s = m p' s) ->
  (forall prev c s, c <> d -> m prev (c :: s) = None) ->
  d ∉ s -> scan m None s s.
Proof.
  intros Hins Hm Hd.
  rewrite <- (app_nil_r s) at 1. rewrite <- (app_nil_r s) at 2.
  apply (scan_copy m d); [done..|constructor].
Qed.

Lemma replace_by_scan m s out :
  consuming m -> scan m None s out -> replace m s = out.
Proof.
  intros Hm H. apply (scan_unique m None s); [by apply replace_scan|done].
Qed.

Lemma literal_without d (l : jstring) :
  forallb (fun c => negb (c =? d)) l = true -> d ∉ l.
Proof.
  rewrite forallb_forall. intros H Hin%list_elem_of_In.
  apply H in Hin. by rewrite N.eqb_refl in Hin.
Qed.

Lemma strip_prefix_app p r : strip_prefix p (p ++ r) = Some r.
Proof. induction p as [|c p IH]; simpl; [done|]. by rewrite N.eqb_refl. Qed.

Lemma unmarked_spec c :
  unmarked c = true -> c <> c_star /\ c <> c_tick /\ line_terminator c = false.
Proof.
  unfold unmarked. rewrite negb_true_iff, !orb_false_iff, !N.eqb_neq. tauto.
Qed.

Lemma plain_unmarked x : forallb plain x = true -> forallb unmarked x = true.
Proof.
  rewrite !forallb_forall. intros H c Hc.
  destruct (plain_spec c (H c Hc)) as (_&_&_&_&Hstar&Htick&Hlt).
  unfold unmarked. rewrite Hlt.
  apply N.eqb_neq in Hstar, Htick. by rewrite Hstar, Htick.
Qed.

Lemma unmarked_without text d :
  unmarked d = false -> forallb unmarked text = true -> d ∉ text.
Proof.
  intros Hd Ht Hin. rewrite forallb_forall in Ht.
  apply list_elem_of_In, Ht in Hin. congruence.
Qed.

Lemma one_line_unmarked (x : jstring) :
  forallb unmarked x = true -> Forall (fun c => line_terminator c = false) x.
Proof.
  rewrite forallb_forall. intros H. apply Forall_forall.
  intros c Hc%list_elem_of_In. apply H in Hc.
  by destruct (unmarked_spec c Hc) as (_&_&?).
Qed.

(** Escaping brings in no star, backquote or line end. *)
Lemma escapeHtml_unmarked x :
  forallb unmarked x = true -> forallb unmarked (escapeHtml x) = true.
Proof.
  induction x as [|c x IH]; simpl; [done|].
  intros [Hc Hx]%andb_true_iff. rewrite forallb_app, (IH Hx), andb_true_r.
  destruct (escape_unit_cases c) as [[_ ->]|[[_ ->]|[[_ ->]|[[_ ->]|(_&_&_&_&->)]]]];
    try reflexivity.
  simpl. by rewrite Hc.
Qed.

Lemma escapeHtml_nonempty y : y <> [] -> escapeHtml y <> [].
Proof.
  destruct y as [|c y]; [done|]. intros _. simpl.
  by destruct (escape_unit_cases c) as [[_ ->]|[[_ ->]|[[_ ->]|[[_ ->]|(_&_&_&_&->)]]]].
Qed.

Lemma lazy_until_eq delim x s :
  lazy_until delim x s =
  match strip_prefix delim s with
  | Some rest => Some ([], rest)
  | None =>
      match s with
      | c :: s' =>
          if x c then
            match lazy_until delim x s' with
            | Some (cap, rest) => Some (c :: cap, rest)
            | None => None
            end
          else None
      | [] => None
      end
  end.
Proof. by destruct s. Qed.

(** The lazy run ends at the first closing delimiter: a capture without
    the unit the delimiter starts with is taken whole. *)
Lemma lazy_until_closing d delim cls x r :
  Forall (fun c => c <> d /\ cls c = true) x ->
  lazy_until (d :: delim) cls (x ++ (d :: delim) ++ r) = Some (x, r).
Proof.
  induction 1 as [|c x [Hd Hc] _ IH].
  - by rewrite app_nil_l, lazy_until_eq, strip_prefix_app.
  - rewrite lazy_until_eq.
    change ((c :: x) ++ (d :: delim) ++ r) with (c :: (x ++ (d :: delim) ++ r)).
    rewrite strip_prefix_other_head by done. by rewrite Hc, IH.
Qed.

Lemma unmarked_run d x :
  unmarked d = false -> forallb unmarked x = true ->
  Forall (fun c => c <> d /\ dot c = true) x.
Proof.
  intros Hd. rewrite forallb_forall. intros H. apply Forall_forall.
  intros c Hc%list_elem_of_In. apply H in Hc. split; [congruence|].
  destruct (unmarked_spec c Hc) as (_&_&Hlt). unfold dot. by rewrite Hlt.
Qed.

Lemma lazy_until_stars x r :
  forallb unmarked x = true ->
  lazy_until (js "**") dot (x ++ js "**" ++ r) = Some (x, r).
Proof.
  intros Hx. apply (lazy_until_closing c_star [c_star]).
  by apply unmarked_run.
Qed.

Lemma span_until_tick y r :
  forallb unmarked y = true ->
  span not_tick (y ++ js "`" ++ r) = (y, js "`" ++ r).
Proof.
  induction y as [|c y IH]; intros Hy.
  - reflexivity.
  - simpl in Hy. apply andb_true_iff in Hy as [Hc Hy].
    destruct (unmarked_spec c Hc) as (_&Htick&_).
    change ((c :: y) ++ js "`" ++ r) with (c :: (y ++ js "`" ++ r)).
    cbn [span]. unfold not_tick at 1.
    apply N.eqb_neq in Htick. rewrite Htick. simpl negb. cbv iota.
    by rewrite (IH Hy).
Qed.

Lemma escapeHtml_app a b : escapeHtml (a ++ b) = escapeHtml a ++ escapeHtml b.
Proof. apply flat_map_app. Qed.

Lemma one_line_literal (l : jstring) :
  forallb (fun c => negb (line_terminator c)) l = true ->
  Forall (fun c => line_terminator c = false) l.
Proof.
  rewrite forallb_forall. intros H. apply Forall_forall.
  intros c Hc%list_elem_of_In. apply H in Hc. by apply negb_true_iff.
Qed.

Lemma one_line_plain (x : jstring) :
  forallb plain x = true -> Forall (fun c => line_terminator c = false) x.
Proof.
  rewrite forallb_forall. intros H. apply Forall_forall.
  intros c Hc%list_elem_of_In. apply H in Hc.
  by destruct (plain_spec c Hc) as (_&_&_&_&_&_&?).
Qed.

Ltac without :=
  repeat match goal with
         | |- _ ∉ _ ++ _ => apply not_elem_of_app; split
         end;
  first [ by apply plain_without | by apply unmarked_without
        | by apply literal_without ].

Ltac one_line :=
  repeat match goal with
         | |- Forall _ (_ ++ _) => apply Forall_app; split
         end;
  first [ by apply one_line_plain | by apply one_line_unmarked
        | by apply one_line_literal ].

Lemma replace_quiet m d s :
  (forall prev c s, c <> d -> m prev (c :: s) = None) ->
  d ∉ s -> replace m s = s.
Proof. intros Hm Hd. by apply (replace_from_quiet m d). Qed.

Lemma bind_of_some {A B} (a : A) (f : A -> option B) : Some a ≫= f = f a.
Proof. reflexivity. Qed.

Lemma bold_step x rest :
  forallb unmarked x = true -> c_star ∉ rest ->
  replace bold (js "**" ++ x ++ js "**" ++ rest) = js "<b>" ++ x ++ js "</b>" ++ rest.
Proof.
  intros Hx Hrest. apply replace_by_scan; [apply bold_consuming|].
  replace (js "<b>" ++ x ++ js "</b>" ++ rest)
    with ((js "<b>" ++ x ++ js "</b>") ++ rest)
    by (by rewrite <- !app_assoc).
  change (js "**" ++ x ++ js "**" ++ rest)
    with (c_star :: (c_star :: x ++ js "**" ++ rest)).
  apply (scan_hit bold None c_star _ _ rest).
  - unfold bold.
    change (c_star :: c_star :: x ++ js "**" ++ rest)
      with (js "**" ++ (x ++ js "**" ++ rest)).
    rewrite strip_prefix_app, bind_of_some.
    by rewrite (lazy_until_stars x _ Hx).
  - apply (scan_prev bold (fun _ _ _ => eq_refl) None).
    by apply (scan_quiet bold c_star); [|apply bold_starts_with_star|].
Qed.

Lemma strip_prefix_same_head d p s :
  strip_prefix (d :: p) (d :: s) = strip_prefix p s.
Proof. simpl. by rewrite N.eqb_refl. Qed.

(** A single backquote opens no fence. *)
Lemma fence_step pre y :
  c_tick ∉ pre -> forallb unmarked y = true -> y <> [] ->
  replace fence (pre ++ js "`" ++ y ++ js "`") = pre ++ js "`" ++ y ++ js "`".
Proof.
  intros Hpre Hy Hne. apply replace_by_scan; [apply fence_consuming|].
  apply (scan_copy fence c_tick); [done|apply fence_starts_with_tick|done|].
  destruct y as [|c y]; [done|].
  simpl in Hy. apply andb_true_iff in Hy as [Hc Hy].
  destruct (unmarked_spec c Hc) as (_&Htick&_).
  change (js "`" ++ (c :: y) ++ js "`") with (c_tick :: (c :: y) ++ js "`").
  apply scan_miss.
  { unfold fence. change (js "```") with [c_tick; c_tick; c_tick].
    change ((c :: y) ++ js "`") with (c :: y ++ js "`").
    by rewrite strip_prefix_same_head, strip_prefix_other_head. }
  apply (scan_prev fence (fun _ _ _ => eq_refl) None).
  apply (scan_copy fence c_tick); [done|apply fence_starts_with_tick| |].
  { apply not_elem_of_cons. split; [done|by apply unmarked_without]. }
  apply scan_miss; [reflexivity|constructor].
Qed.

Lemma code_step pre y :
  c_tick ∉ pre -> forallb unmarked y = true -> y <> [] ->
  replace code (pre ++ js "`" ++ y ++ js "`") = pre ++ js "<code>" ++ y ++ js "</code>".
Proof.
  intros Hpre Hy Hne. apply replace_by_scan; [apply code_consuming|].
  apply (scan_copy code c_tick); [done|apply code_starts_with_tick|done|].
  rewrite <- (app_nil_r (js "<code>" ++ y ++ js "</code>")).
  change (js "`" ++ y ++ js "`") with (c_tick :: (y ++ js "`")).
  apply (scan_hit code None c_tick _ _ []); [|constructor].
  unfold code.
  change (c_tick :: y ++ js "`") with (js "`" ++ (y ++ js "`" ++ [])).
  rewrite strip_prefix_app, bind_of_some.
  rewrite (span_until_tick y [] Hy).
  destruct y as [|c y]; [done|]. reflexivity.
Qed.

(** X4: for plain [x] and non-empty plain [y], the text with [x] between
    double stars and [y] between backquotes is rendered as [x] in a [<b>]
    wrapper and [y] in a [<code>] wrapper. *)
Theorem formatMessageText_bold_and_code x y :
  forallb plain x = true -> forallb plain y = true -> y <> [] ->
  formatMessageText (js "**" ++ x ++ js "**" ++ js " and " ++ js "`" ++ y ++ js "`")
  = js "<b>" ++ x ++ js "</b>" ++ js " and " ++ js "<code>" ++ y ++ js "</code>".
Proof.
  intros Hx Hy Hne. rewrite formatMessageText_chain.
  rewrite !escapeHtml_app, (escapeHtml_plain x Hx), (escapeHtml_plain y Hy).
  change (escapeHtml (js "**")) with (js "**").
  change (escapeHtml (js " and ")) with (js " and ").
  change (escapeHtml (js "`")) with (js "`").
  rewrite (bold_step x _ (plain_unmarked x Hx)) by without.
  rewrite (replace_quiet italic c_star _ italic_starts_with_star) by without.
  rewrite !(app_assoc _ _ (js "`" ++ y ++ js "`")).
  rewrite fence_step by (done || without || by apply plain_unmarked).
  rewrite code_step by (done || without || by apply plain_unmarked).
  rewrite <- !app_assoc.
  unfold replace at 1 2 3. rewrite replace_from_bullet_quiet; [|one_line|by right].
  rewrite (replace_from_quiet blank_line c_nl blank_line_starts_with_nl)
    by without.
  by rewrite (replace_from_quiet line_break c_nl line_break_starts_with_nl)
    by without.
Qed.

Lemma formatMessageText_bold_and_code_witness :
  formatMessageText (js "**" ++ js "bold" ++ js "**" ++ js " and " ++ js "`"
                     ++ js "code" ++ js "`")
  = js "<b>" ++ js "bold" ++ js "</b>" ++ js " and " ++ js "<code>" ++ js "code"
    ++ js "</code>".
Proof. apply formatMessageText_bold_and_code; [reflexivity|reflexivity|discriminate]. Defined.

(** *** Escaping first, then the substitutions *)

(** [escapeHtml] writes the one markup that stands for its input. *)
Lemma escapeHtml_stands_for text : stands_for (escapeHtml text) text.
Proof.
  induction text as [|c text IH]; simpl; [constructor|].
  destruct (escape_unit_cases c) as [[-> ->]|[[-> ->]|[[-> ->]|[[-> ->]|(?&?&?&?&->)]]]].
  - apply stands_ref; [unfold references; set_solver|done].
  - apply stands_ref; [unfold references; set_solver|done].
  - apply stands_ref; [unfold references; set_solver|done].
  - apply stands_ref; [unfold references; set_solver|done].
  - by apply stands_unit.
Qed.

Lemma stands_for_escapeHtml h text : stands_for h text -> h = escapeHtml text.
Proof.
  induction 1 as [|c h t Ha Hl Hg Hn _ IH|e c h t He _ IH]; simpl; [done| |].
  - destruct (escape_unit_cases c) as [[? _]|[[? _]|[[? _]|[[? _]|(_&_&_&_&->)]]]];
      try done. by rewrite IH.
  - rewrite IH. f_equal. unfold references in He.
    repeat (apply elem_of_cons in He as [[= -> ->]|He]; [reflexivity|]).
    by apply elem_of_nil in He.
Qed.

Local Abbreviation substituted html :=
  (replace line_break (replace blank_line (replace bullet (replace code
     (replace fence (replace italic (replace bold html))))))).

Lemma one_line_no_nl (s : jstring) :
  Forall (fun c => line_terminator c = false) s -> c_nl ∉ s.
Proof.
  rewrite Forall_forall. intros H Hin. by apply H in Hin.
Qed.

(** One line that does not begin with a list marker passes the last three
    substitutions as it is. *)
Lemma lines_quiet s :
  Forall (fun c => line_terminator c = false) s ->
  strip_prefix (js "- ") s = None ->
  replace line_break (replace blank_line (replace bullet s)) = s.
Proof.
  intros Hs Hd. unfold replace.
  rewrite replace_from_bullet_quiet; [|done|by right].
  rewrite (replace_from_quiet blank_line c_nl blank_line_starts_with_nl)
    by by apply one_line_no_nl.
  by rewrite (replace_from_quiet line_break c_nl line_break_starts_with_nl)
    by by apply one_line_no_nl.
Qed.

Lemma bold_and_code_substituted x y :
  forallb unmarked x = true -> forallb unmarked y = true -> y <> [] ->
  substituted (js "**" ++ x ++ js "**" ++ js " and " ++ js "`" ++ y ++ js "`")
  = js "<b>" ++ x ++ js "</b>" ++ js " and " ++ js "<code>" ++ y ++ js "</code>".
Proof.
  intros Hx Hy Hne.
  rewrite (bold_step x _ Hx) by without.
  rewrite (replace_quiet italic c_star _ italic_starts_with_star) by without.
  rewrite !(app_assoc _ _ (js "`" ++ y ++ js "`")).
  rewrite fence_step by (done || without).
  rewrite code_step by (done || without).
  rewrite <- !app_assoc.
  apply lines_quiet; [one_line|reflexivity].
Qed.

(** A lone pair of stars is no bold marker. *)
Lemma bold_single_stars x :
  forallb unmarked x = true ->
  replace bold (js "*" ++ x ++ js "*") = js "*" ++ x ++ js "*".
Proof.
  intros Hx. apply replace_by_scan; [apply bold_consuming|].
  change (js "*" ++ x ++ js "*") with (c_star :: (x ++ [c_star])).
  apply scan_miss.
  { unfold bold. change (js "**") with [c_star; c_star].
    rewrite strip_prefix_same_head.
    destruct x as [|c x]; [reflexivity|].
    simpl in Hx. apply andb_true_iff in Hx as [Hc _].
    destruct (unmarked_spec c Hc) as (Hstar&_&_).
    change ((c :: x) ++ [c_star]) with (c :: (x ++ [c_star])).
    by rewrite strip_prefix_other_head. }
  apply (scan_prev bold (fun _ _ _ => eq_refl) None).
  apply (scan_copy bold c_star); [done|apply bold_starts_with_star| |].
  { by apply unmarked_without. }
  apply scan_miss; [reflexivity|constructor].
Qed.

Lemma italic_step x :
  forallb unmarked x = true ->
  replace italic (js "*" ++ x ++ js "*") = js "<i>" ++ x ++ js "</i>".
Proof.
  intros Hx. apply replace_by_scan; [apply italic_consuming|].
  rewrite <- (app_nil_r (js "<i>" ++ x ++ js "</i>")).
  change (js "*" ++ x ++ js "*") with (c_star :: (x ++ [c_star])).
  apply (scan_hit italic None c_star _ _ []); [|constructor].
  unfold italic.
  change (c_star :: x ++ [c_star]) with (js "*" ++ (x ++ [c_star] ++ [])).
  rewrite strip_prefix_app, bind_of_some.
  change (js "*") with [c_star].
  by rewrite (lazy_until_closing c_star [] dot x []) by by apply unmarked_run.
Qed.

Lemma italic_substituted x :
  forallb unmarked x = true ->
  substituted (js "*" ++ x ++ js "*") = js "<i>" ++ x ++ js "</i>".
Proof.
  intros Hx.
  rewrite (bold_single_stars x Hx), (italic_step x Hx).
  rewrite (replace_quiet fence c_tick _ fence_starts_with_tick) by without.
  rewrite (replace_quiet code c_tick _ code_starts_with_tick) by without.
  apply lines_quiet; [one_line|reflexivity].
Qed.

Lemma fence_whole x :
  forallb unmarked x = true ->
  replace fence (js "```" ++ x ++ js "```")
  = js "<pre><code>" ++ x ++ js "</code></pre>".
Proof.
  intros Hx. apply replace_by_scan; [apply fence_consuming|].
  rewrite <- (app_nil_r (js "<pre><code>" ++ x ++ js "</code></pre>")).
  change (js "```" ++ x ++ js "```")
    with (c_tick :: ([c_tick; c_tick] ++ x ++ js "```")).
  apply (scan_hit fence None c_tick _ _ []); [|constructor].
  unfold fence.
  change (c_tick :: [c_tick; c_tick] ++ x ++ js "```")
    with (js "```" ++ (x ++ js "```" ++ [])).
  rewrite strip_prefix_app, bind_of_some.
  change (js "```") with [c_tick; c_tick; c_tick].
  rewrite (lazy_until_closing c_tick [c_tick; c_tick] any x []); [done|].
  rewrite forallb_forall in Hx. apply Forall_forall.
  intros c Hc%list_elem_of_In. apply Hx in Hc.
  by destruct (unmarked_spec c Hc) as (_&?&_).
Qed.

Lemma fence_substituted x :
  forallb unmarked x = true ->
  substituted (js "```" ++ x ++ js "```")
  = js "<pre><code>" ++ x ++ js "</code></pre>".
Proof.
  intros Hx.
  rewrite (replace_quiet bold c_star _ bold_starts_with_star) by without.
  rewrite (replace_quiet italic c_star _ italic_starts_with_star) by without.
  rewrite (fence_whole x Hx).
  rewrite (replace_quiet code c_tick _ code_starts_with_tick) by without.
  apply lines_quiet; [one_line|reflexivity].
Qed.

(** The greedy run of a list item goes to the end of its line. *)
Lemma span_line x r :
  Forall (fun c => line_terminator c = false) x ->
  span dot (x ++ c_nl :: r) = (x, c_nl :: r).
Proof.
  induction 1 as [|c x Hc _ IH]; [reflexivity|].
  change ((c :: x) ++ c_nl :: r) with (c :: (x ++ c_nl :: r)).
  cbn [span]. unfold dot at 1. rewrite Hc. simpl negb. cbv iota.
  by rewrite IH.
Qed.

Lemma span_whole x :
  Forall (fun c => line_terminator c = false) x -> span dot x = (x, []).
Proof.
  induction 1 as [|c x Hc _ IH]; [reflexivity|].
  cbn [span]. unfold dot at 1. rewrite Hc. simpl negb. cbv iota.
  by rewrite IH.
Qed.

(** The list marker counts at the start of every line. *)
Lemma bullet_step x y :
  Forall (fun c => line_terminator c = false) x ->
  Forall (fun c => line_terminator c = false) y ->
  replace bullet (js "- " ++ x ++ [c_nl] ++ js "- " ++ y)
  = [bullet_glyph; c_space] ++ x ++ [c_nl] ++ [bullet_glyph; c_space] ++ y.
Proof.
  intros Hx Hy. apply replace_by_scan; [apply bullet_consuming|].
  change (js "- " ++ x ++ [c_nl] ++ js "- " ++ y)
    with (c_dash :: (c_space :: x ++ c_nl :: js "- " ++ y)).
  replace ([bullet_glyph; c_space] ++ x ++ [c_nl] ++ [bullet_glyph; c_space] ++ y)
    with ((bullet_glyph :: c_space :: x)
          ++ (c_nl :: ((bullet_glyph :: c_space :: y) ++ [])))
    by (by rewrite app_nil_r).
  apply (scan_hit bullet None c_dash _ _ (c_nl :: js "- " ++ y)).
  { unfold bullet. cbn [at_line_start].
    change (c_dash :: c_space :: x ++ c_nl :: js "- " ++ y)
      with (js "- " ++ (x ++ c_nl :: js "- " ++ y)).
    rewrite strip_prefix_app, bind_of_some. by rewrite (span_line x _ Hx). }
  apply scan_miss.
  { unfold bullet. destruct (at_line_start _); reflexivity. }
  change (js "- " ++ y) with (c_dash :: (c_space :: y)).
  apply (scan_hit bullet (Some c_nl) c_dash _ _ []); [|constructor].
  unfold bullet. cbn [at_line_start]. change (line_terminator c_nl) with true.
  cbv iota.
  change (c_dash :: c_space :: y) with (js "- " ++ y).
  rewrite strip_prefix_app, bind_of_some. by rewrite (span_whole y Hy).
Qed.

(** One line feed alone is no blank line. *)
Lemma blank_line_single p q :
  c_nl ∉ p -> c_nl ∉ q ->
  replace blank_line (p ++ [c_nl] ++ q) = p ++ [c_nl] ++ q.
Proof.
  intros Hp Hq. apply replace_by_scan; [apply blank_line_consuming|].
  apply (scan_copy blank_line c_nl); [done|apply blank_line_starts_with_nl|done|].
  change ([c_nl] ++ q) with (c_nl :: q).
  apply scan_miss.
  { unfold blank_line. rewrite strip_prefix_same_head.
    destruct q as [|c q]; [reflexivity|].
    apply not_elem_of_cons in Hq as [Hc _].
    by rewrite strip_prefix_other_head. }
  apply (scan_prev blank_line (fun _ _ _ => eq_refl) None).
  by apply (scan_quiet blank_line c_nl); [|apply blank_line_starts_with_nl|].
Qed.

Lemma line_break_single p q :
  c_nl ∉ p -> c_nl ∉ q ->
  replace line_break (p ++ [c_nl] ++ q) = p ++ js "<br>" ++ q.
Proof.
  intros Hp Hq. apply replace_by_scan; [apply line_break_consuming|].
  apply (scan_copy line_break c_nl); [done|apply line_break_starts_with_nl|done|].
  change ([c_nl] ++ q) with (c_nl :: q).
  apply (scan_hit line_break None c_nl _ _ q).
  { rewrite line_break_at. by rewrite N.eqb_refl. }
  apply (scan_prev line_break (fun _ _ _ => eq_refl) None).
  by apply (scan_quiet line_break c_nl); [|apply line_break_starts_with_nl|].
Qed.

Lemma list_substituted x y :
  forallb unmarked x = true -> forallb unmarked y = true ->
  substituted (js "- " ++ x ++ [c_nl] ++ js "- " ++ y)
  = [bullet_glyph; c_space] ++ x ++ js "<br>" ++ [bullet_glyph; c_space] ++ y.
Proof.
  intros Hx Hy.
  rewrite (replace_quiet bold c_star _ bold_starts_with_star) by without.
  rewrite (replace_quiet italic c_star _ italic_starts_with_star) by without.
  rewrite (replace_quiet fence c_tick _ fence_starts_with_tick) by without.
  rewrite (replace_quiet code c_tick _ code_starts_with_tick) by without.
  rewrite bullet_step by by apply one_line_unmarked.
  rewrite (app_assoc _ x).
  rewrite blank_line_single, line_break_single; [by rewrite <- app_assoc| | | |];
    repeat match goal with
           | |- _ ∉ _ ++ _ => apply not_elem_of_app; split
           end;
    first [ by apply one_line_no_nl, one_line_unmarked | by apply literal_without ].
Qed.

Local Abbreviation broken :=
  (flat_map (fun c => if c_nl =? c then js "<br>" else [c])).

(** The last substitution rewrites unit by unit. *)
Lemma replace_from_line_break_flat fuel prev s :
  (length s <= fuel)%nat -> replace_from fuel line_break prev s = broken s.
Proof.
  revert prev s; induction fuel as [|fuel IH]; intros prev s Hlen.
  - destruct s; [done|simpl in Hlen; lia].
  - destruct s as [|c s]; [done|]. simpl in Hlen.
    rewrite replace_from_step, line_break_at. cbn [flat_map].
    destruct (c_nl =? c); rewrite IH by lia; reflexivity.
Qed.

Lemma replace_from_blank_line_broken fuel prev s :
  (length s <= fuel)%nat -> broken (replace_from fuel blank_line prev s) = broken s.
Proof.
  revert prev s; induction fuel as [|fuel IH]; intros prev s Hlen; [done|].
  destruct s as [|c s]; [done|]. rewrite replace_from_step.
  destruct (blank_line prev (c :: s)) as [[out rest]|] eqn:E.
  - pose proof (blank_line_consuming _ _ _ _ E) as Hrest.
    unfold blank_line in E. apply bind_Some in E as (rest' & E & [= <- <-]).
    apply strip_prefix_spec in E. rewrite E.
    rewrite flat_map_app, IH by (simpl in *; lia). reflexivity.
  - cbn [flat_map]. rewrite IH by (simpl in *; lia). reflexivity.
Qed.

(** What the blank-line substitution writes is what the line-break
    substitution would have written anyway. *)
Lemma blank_line_absorbed s :
  replace line_break (replace blank_line s) = replace line_break s.
Proof.
  unfold replace at 1 3. rewrite !replace_from_line_break_flat by done.
  by apply replace_from_blank_line_broken.
Qed.

(** C5: [formatMessageText] escapes first and then substitutes.

    The escaping is complete: [escapeHtml text] is the one markup that
    stands for [text], with every ampersand, angle bracket and no-break
    space written as its reference (so an ampersand of the input cannot
    be read as a reference, nor an angle bracket as a tag), and it holds
    no angle bracket at all.

    The substitutions run on the escaped text in the order bold, italic,
    fenced code, inline code, list marker, blank line, line break, each a
    complete scan, and each of them is applied.  For texts [x] and [y]
    without star, backquote and line end, whatever else they hold: bold
    markers around [x] and backquotes around a non-empty [y] give [x] in a
    [<b>] and [y] in a [<code>] wrapper, both escaped, while the wrappers
    are not (a pair of double stars is bold, not two italics); single
    stars give an [<i>] wrapper; a fence gives [<pre><code>] (not inline
    code between backquotes); list markers are replaced at the start of
    each line, before the line feed between them becomes [<br>].  The
    blank-line substitution alone leaves no trace of its own: the two
    breaks it writes are the ones the line-break substitution writes for
    the two line feeds.

    And for every input each angle bracket of the output belongs to a tag
    written by a substitution, none to the original text. *)
Theorem formatMessageText_escapes_then_substitutes :
  (forall text h, stands_for h text <-> h = escapeHtml text) /\
  (forall text, Forall (fun c => c <> c_lt /\ c <> c_gt) (escapeHtml text)) /\
  (forall text,
      formatMessageText text =
      replace line_break (replace blank_line (replace bullet (replace code
        (replace fence (replace italic (replace bold (escapeHtml text)))))))) /\
  (forall s,
      scan bold None s (replace bold s) /\ scan italic None s (replace italic s) /\
      scan fence None s (replace fence s) /\ scan code None s (replace code s) /\
      scan bullet None s (replace bullet s) /\
      scan blank_line None s (replace blank_line s) /\
      scan line_break None s (replace line_break s)) /\
  (forall x y,
      forallb unmarked x = true -> forallb unmarked y = true -> y <> [] ->
      formatMessageText (js "**" ++ x ++ js "**" ++ js " and " ++ js "`" ++ y ++ js "`")
      = js "<b>" ++ escapeHtml x ++ js "</b>" ++ js " and "
        ++ js "<code>" ++ escapeHtml y ++ js "</code>") /\
  (forall x,
      forallb unmarked x = true ->
      formatMessageText (js "*" ++ x ++ js "*")
      = js "<i>" ++ escapeHtml x ++ js "</i>") /\
  (forall x,
      forallb unmarked x = true ->
      formatMessageText (js "```" ++ x ++ js "```")
      = js "<pre><code>" ++ escapeHtml x ++ js "</code></pre>") /\
  (forall x y,
      forallb unmarked x = true -> forallb unmarked y = true ->
      formatMessageText (js "- " ++ x ++ [c_nl] ++ js "- " ++ y)
      = [bullet_glyph; c_space] ++ escapeHtml x ++ js "<br>"
        ++ [bullet_glyph; c_space] ++ escapeHtml y) /\
  (forall s, replace line_break (replace blank_line s) = replace line_break s) /\
  (forall text, tagged (formatMessageText text)).
Proof.
  split.
  { intros text h. split; [apply stands_for_escapeHtml|].
    intros ->. apply escapeHtml_stands_for. }
  split; [exact escapeHtml_no_bracket|].
  split; [exact formatMessageText_chain|].
  split.
  { intros s. repeat split; apply replace_scan;
      [ apply bold_consuming | apply italic_consuming | apply fence_consuming
      | apply code_consuming | apply bullet_consuming
      | apply blank_line_consuming | apply line_break_consuming ]. }
  split.
  { intros x y Hx Hy Hne. rewrite formatMessageText_chain, !escapeHtml_app.
    apply bold_and_code_substituted;
      [by apply escapeHtml_unmarked..|by apply escapeHtml_nonempty]. }
  split.
  { intros x Hx. rewrite formatMessageText_chain, !escapeHtml_app.
    apply italic_substituted. by apply escapeHtml_unmarked. }
  split.
  { intros x Hx. rewrite formatMessageText_chain, !escapeHtml_app.
    apply fence_substituted. by apply escapeHtml_unmarked. }
  split.
  { intros x y Hx Hy. rewrite formatMessageText_chain, !escapeHtml_app.
    apply list_substituted; by apply escapeHtml_unmarked. }
  split; [exact blank_line_absorbed|].
  exact formatMessageText_tagged.
Qed.

Lemma formatMessageText_escapes_then_substitutes_witness :
  formatMessageText (js "**" ++ js "bold" ++ js "**" ++ js " and " ++ js "`"
                     ++ js "code" ++ js "`")
  = js "<b>bold</b> and <code>code</code>" /\
  formatMessageText (js "**" ++ js "a<b & c" ++ js "**" ++ js " and " ++ js "`"
                     ++ js "x>y" ++ js "`")
  = js "<b>a&lt;b &amp; c</b> and <code>x&gt;y</code>" /\
  formatMessageText (js "*" ++ js "R&D" ++ js "*") = js "<i>R&amp;D</i>" /\
  formatMessageText (js "```" ++ js "if (a < b)" ++ js "```")
  = js "<pre><code>if (a &lt; b)</code></pre>" /\
  formatMessageText (js "- " ++ js "one" ++ [c_nl] ++ js "- " ++ js "two")
  = [bullet_glyph; c_space] ++ js "one<br>" ++ [bullet_glyph; c_space] ++ js "two".
Proof.
  destruct formatMessageText_escapes_then_substitutes
    as (_ & _ & _ & _ & Hbc & Hi & Hf & Hl & _).
  split; [apply (Hbc (js "bold") (js "code")); [reflexivity|reflexivity|discriminate]|].
  split; [apply (Hbc (js "a<b & c") (js "x>y")); [reflexivity|reflexivity|discriminate]|].
  split; [apply (Hi (js "R&D")); reflexivity|].
  split; [apply (Hf (js "if (a < b)")); reflexivity|].
  apply (Hl (js "one") (js "two")); reflexivity.
Defined.

End RenderExtra.

(** ** More on the conversation *)

Module SessionExtra.
Import SessionFacts.

Local Arguments cleared : simpl never.

Ltac run_all :=
  unfold handle, call, resume, sendMessage, sendMessage_begin, sendMessage_resume,
    sendMessage_catch, addMessageToUI, newConversation, loadDocuments_inner,
    checkSystemStatus_begin, checkSystemStatus_resume, set_backendStatus,
    set_ragStatus, set_modelStatus, set_text,
    deleteDocument_begin, deleteDocument_resume, renderDocuments,
    exportChat_begin, exportChat_resume,
    fetch, alert, console_error, deliver, to_text, await,
    when, try_catch, throw, lift, get, modify, mbind, mret, M_bind, M_ret.

Ltac cases :=
  repeat (simpl;
          match goal with
          | |- context [match ?x with _ => _ end] =>
              lazymatch x with
              | context [match _ with _ => _ end] => fail
              | _ => destruct x eqn:?
              end
          end);
  simpl.


(** The probe writes the three status elements and the console, nothing
    else, and returns. *)
Lemma checkSystemStatus_resume_frame o w :
  (checkSystemStatus_resume o w).1 = Ok tt /\
  messagesContainer (checkSystemStatus_resume o w).2 = messagesContainer w /\
  currentConversationId (checkSystemStatus_resume o w).2 = currentConversationId w /\
  requests (checkSystemStatus_resume o w).2 = requests w.
Proof. destruct w. run_all. cases; done. Qed.

(** What the startup leaves of the conversation once its request has
    settled: no id, and the placeholder alone. *)
Lemma resume_startup o w :
  (resume ParkedStartup o w).1 = Ok tt /\
  currentConversationId (resume ParkedStartup o w).2 = JNull /\
  messagesContainer (resume ParkedStartup o w).2
    = match messagesContainer w with Some _ => Some [Placeholder] | None => None end /\
  requests (resume ParkedStartup o w).2 = requests w.
Proof.
  destruct (checkSystemStatus_resume_frame o w) as (Hr & Hc & _ & Hq).
  unfold resume, mbind, M_bind.
  destruct (checkSystemStatus_resume o w) as [r w1]. simpl in *. subst r.
  destruct w1. simpl in *. subst.
  unfold loadDocuments_inner, newConversation, modify, get, mbind, M_bind.
  simpl. cases; done.
Qed.



Lemma id_settled_handle e c : id_settled (now c) -> id_settled (now (handle e c)).
Proof.
  destruct c as [w ts]. unfold id_settled.
  destruct e as [value| | | |doc_id confirmed| |i o];
    [destruct w; run_all; cases; auto..|].
  cbn [handle outstanding now]. destruct (ts !! i) as [t|]; [|done]. cbn [now].
  destruct t;
    [|destruct (resume_startup o w) as (_ & -> & _); auto|..];
    destruct w; run_all; cases; auto.
Qed.

(** X6: whatever happens on the page, the conversation id the state holds
    is [null] or a truthy value; a falsy value other than [null] (an empty
    string, zero, [false]) is never stored. *)
Theorem id_settled_run es c :
  id_settled (now c) -> id_settled (now (run es c)).
Proof.
  revert c; induction es as [|e es IH]; intros c Hc; [done|].
  simpl. apply IH. by apply id_settled_handle.
Qed.

Lemma id_settled_run_witness :
  id_settled
    (now (run [Edit (js "hi"); ClickSend;
               Settle 0 (reply 200 (JObj [(js "conversation_id", JStr [])]))]
            (page fresh))).
Proof. apply id_settled_run. by left. Defined.

Local Abbreviation only_bubbles :=
  (Forall (fun n => match n with Bubble _ => True | Placeholder => False end)).

Lemma tidy_cleared children :
  children = [Placeholder] \/ only_bubbles children ->
  cleared children = [Placeholder] \/ only_bubbles (cleared children).
Proof.
  intros [->|H]; right; [constructor|].
  destruct H as [|[|m] [|n children] Hn H]; try done; by constructor.
Qed.

Lemma tidy_added children m :
  children = [Placeholder] \/ only_bubbles children ->
  cleared children ++ [Bubble m] = [Placeholder]
  \/ only_bubbles (cleared children ++ [Bubble m]).
Proof.
  intros H. right. apply Forall_app. split; [|by repeat constructor].
  destruct H as [->|H]; [constructor|].
  destruct H as [|[|m'] [|n children] Hn H]; try done; by constructor.
Qed.

Ltac tidied :=
  solve [ done | by left | auto using tidy_cleared, tidy_added ].

Lemma tidy_handle e c : tidy (now c) -> tidy (now (handle e c)).
Proof.
  destruct c as [w ts]. unfold tidy.
  destruct e as [value| | | |doc_id confirmed| |i o];
    [destruct w; run_all; cases; intros; tidied..|].
  cbn [handle outstanding now]. destruct (ts !! i) as [t|]; [|done]. cbn [now].
  destruct t;
    [|destruct (resume_startup o w) as (_ & _ & -> & _);
      destruct (messagesContainer w); tidied|..];
    destruct w; run_all; cases; intros; tidied.
Qed.

(** X7: the placeholder never stands beside a message: whatever happens,
    the container holds the placeholder alone or messages only. *)
Theorem tidy_run es c : tidy (now c) -> tidy (now (run es c)).
Proof.
  revert c; induction es as [|e es IH]; intros c Hc; [done|].
  simpl. apply IH. by apply tidy_handle.
Qed.

Lemma tidy_run_witness :
  tidy (now (run [Edit (js "hi"); ClickSend; ClickNew; Settle 0 unreachable]
               (page fresh))).
Proof. apply tidy_run. by left. Defined.

Lemma resume_requests t o w : requests (resume t o w).2 = requests w.
Proof.
  destruct t; [|by destruct (resume_startup o w) as (_ & _ & _ & ->)|..];
    destruct w; run_all; cases; done.
Qed.

(** X8: nothing is retried and nothing fans out.  A request that settles
    never causes another request; any other event issues at most one, and
    exactly as many functions are parked as requests were issued. *)
Theorem one_request_per_event e c :
  exists rs,
    requests (now (handle e c)) = requests (now c) ++ rs /\
    (length rs <= 1)%nat /\
    match e with
    | Settle i o =>
        rs = [] /\ (length (outstanding (handle e c)) <= length (outstanding c))%nat
    | _ =>
        length (outstanding (handle e c)) = (length (outstanding c) + length rs)%nat
    end.
Proof.
  destruct c as [w ts].
  destruct e as [value| | | |doc_id confirmed| |i o].
  - exists []. destruct w; run_all; cases; rewrite ?app_nil_r; auto with lia.
  - destruct w; run_all; cases;
      first [ exists []; rewrite ?app_nil_r, ?length_app; simpl; split; [done|]; split; lia
            | eexists [_]; rewrite ?length_app; simpl; split; [done|]; split; lia ].
  - exists []. destruct w; run_all; cases; rewrite ?app_nil_r; auto with lia.
  - destruct w; run_all; cases;
      first [ exists []; rewrite ?app_nil_r, ?length_app; simpl; split; [done|]; split; lia
            | eexists [_]; rewrite ?length_app; simpl; split; [done|]; split; lia ].
  - destruct w; run_all; cases;
      first [ exists []; rewrite ?app_nil_r, ?length_app; simpl; split; [done|]; split; lia
            | eexists [_]; rewrite ?length_app; simpl; split; [done|]; split; lia ].
  - destruct w; run_all; cases;
      first [ exists []; rewrite ?app_nil_r, ?length_app; simpl; split; [done|]; split; lia
            | eexists [_]; rewrite ?length_app; simpl; split; [done|]; split; lia ].
  - exists []. simpl. destruct (ts !! i) as [t|] eqn:Ht; simpl.
    + rewrite resume_requests, app_nil_r. split; [done|]. split; [lia|].
      split; [done|]. rewrite length_delete by eauto. lia.
    + rewrite app_nil_r. auto.
Qed.

(** X9: the id a reply brings is the id the next send carries: after a 2xx
    reply whose [conversation_id] is a non-empty string, a send with
    non-empty trimmed input posts that string as [conversation_id]. *)
Theorem reply_id_is_sent_back w res c cid value :
  ok res = true ->
  get_prop (json_or_empty res) (js "conversation_id") = Ok (JStr (c :: cid)) ->
  chatInput w = Some value -> trim value <> [] ->
  requests (sendMessage_begin (sendMessage_resume (Ok res) w).2).2
  = requests w ++ [PostChat (trim value) (JStr (c :: cid))].
Proof.
  intros Hok Hcid Hi Ht.
  destruct (trim value) as [|u m] eqn:Hm; [done|].
  destruct w; simpl in Hi; subst. run_all. rewrite Hok. simpl. rewrite Hcid.
  cases; rewrite ?Hm; cases; done.
Qed.

Lemma reply_id_is_sent_back_witness :
  requests
    (sendMessage_begin
       (sendMessage_resume (reply 200 (chat_reply (js "hello") (js "c1")))
          (set_chatInput (Some (js "more")) fresh)).2).2
  = [PostChat (js "more") (JStr (js "c1"))].
Proof.
  apply (reply_id_is_sent_back (set_chatInput (Some (js "more")) fresh)
           {| status := 200; json := Ok (chat_reply (js "hello") (js "c1"));
              blob := Ok [] |} 99 [49] (js "more"));
    [reflexivity|reflexivity|reflexivity|by vm_compute].
Defined.


(** X10: "new conversation" forgets the id and empties the conversation
    without asking the backend anything; the send that follows carries
    [conversation_id: null]. *)
Theorem newConversation_starts_over w value :
  chatInput w = Some value -> trim value <> [] ->
  (newConversation w).1 = Ok tt /\
  currentConversationId (newConversation w).2 = JNull /\
  messages (newConversation w).2 = [] /\
  requests (newConversation w).2 = requests w /\
  documents (newConversation w).2 = documents w /\
  requests (sendMessage_begin (newConversation w).2).2
    = requests w ++ [PostChat (trim value) JNull] /\
  messages (sendMessage_begin (newConversation w).2).2
    = match messagesContainer w with
      | Some _ => [user_says (trim value)]
      | None => []
      end.
Proof.
  intros Hi Ht. destruct (trim value) as [|u m] eqn:Hm; [done|].
  unfold messages. destruct w; simpl in Hi; subst.
  run_all. cases; rewrite ?Hm; cases; done.
Qed.

Lemma newConversation_starts_over_witness :
  requests
    (sendMessage_begin
       (newConversation
          (set_currentConversationId (JStr (js "c1"))
             (set_chatInput (Some (js "hi")) fresh))).2).2
  = [PostChat (js "hi") JNull].
Proof.
  apply (newConversation_starts_over
           (set_currentConversationId (JStr (js "c1"))
              (set_chatInput (Some (js "hi")) fresh)) (js "hi"));
    [reflexivity|by vm_compute].
Defined.



(** X12: without [#chatInput] a send does nothing; without
    [#messagesContainer] it still posts the message and takes the reply,
    but shows nothing and does not throw. *)
Theorem send_with_missing_elements w :
  (chatInput w = None -> sendMessage_begin w = (Ok Done, w)) /\
  (forall value o,
      messagesContainer w = None -> chatInput w = Some value -> trim value <> [] ->
      (sendMessage_begin w).1 = Ok Awaiting /\
      requests (sendMessage_begin w).2
        = requests w ++ [PostChat (trim value) (js_or (currentConversationId w) JNull)] /\
      (sendMessage_resume o (sendMessage_begin w).2).1 = Ok tt /\
      messagesContainer (sendMessage_resume o (sendMessage_begin w).2).2 = None).
Proof.
  split.
  - intros Hi. destruct w; simpl in Hi; subst. reflexivity.
  - intros value o Hc Hi Ht. destruct (trim value) as [|u m] eqn:Hm; [done|].
    destruct w; simpl in Hi, Hc; subst.
    run_all. simpl. rewrite Hm. cases; done.
Qed.

Lemma send_with_missing_elements_witness :
  requests (sendMessage_begin
              (set_messagesContainer None (set_chatInput (Some (js "hi")) fresh))).2
  = [PostChat (js "hi") JNull].
Proof.
  destruct (send_with_missing_elements
              (set_messagesContainer None (set_chatInput (Some (js "hi")) fresh)))
    as [_ H].
  apply (H (js "hi") unreachable eq_refl eq_refl ltac:(by vm_compute)).
Defined.

(** X13: the backend's error detail goes to the console, not to the
    conversation: on a non-2xx reply with an object body the logged error
    carries the body's [detail] when that is a non-empty string and
    ["Chat request failed"] when the body has none. *)
Theorem chat_error_detail_is_logged w res fields :
  ok res = false -> json res = Ok (JObj fields) ->
  (forall c d,
      own_prop fields (js "detail") = Some (JStr (c :: d)) ->
      console (sendMessage_resume (Ok res) w).2
        = console w ++ [(js "Chat error:", JsError (JStr (c :: d)))]) /\
  (own_prop fields (js "detail") = None ->
   console (sendMessage_resume (Ok res) w).2
     = console w ++ [(js "Chat error:", JsError (JStr (js "Chat request failed")))]).
Proof.
  intros Hok Hj. split.
  - intros c d Hd. destruct w. run_all. unfold json_or_empty.
    rewrite Hok, Hj. simpl. rewrite Hd. cases; done.
  - intros Hd. destruct w. run_all. unfold json_or_empty.
    rewrite Hok, Hj. simpl. rewrite Hd. cases; done.
Qed.

Lemma chat_error_detail_is_logged_witness :
  console
    (sendMessage_resume (reply 500 (JObj [(js "detail", JStr (js "model not loaded"))]))
       fresh).2
  = [(js "Chat error:", JsError (JStr (js "model not loaded")))].
Proof.
  destruct (chat_error_detail_is_logged fresh
              {| status := 500;
                 json := Ok (JObj [(js "detail", JStr (js "model not loaded"))]);
                 blob := Ok [] |}
              [(js "detail", JStr (js "model not loaded"))] eq_refl eq_refl) as [H _].
  apply (H 109 (js "odel not loaded")). reflexivity.
Defined.

End SessionExtra.

(** ** More on the status probe, the export and the document list *)

Module PageExtra.
Import SessionFacts SessionExtra.

(** X14: when the probe gets a JSON object, the three status elements show
    the online text, ["RAG not configured"] and the body's [model] when
    that is a non-empty string; a body without [model], or with an empty
    one, is shown as ["Unknown model"]. *)
Theorem probe_shows_model w res fields b r m :
  backendStatus w = Some b -> ragStatus w = Some r -> modelStatus w = Some m ->
  json res = Ok (JObj fields) ->
  (own_prop fields (js "model") = None
   \/ own_prop fields (js "model") = Some (JStr [])
   \/ exists c s, own_prop fields (js "model") = Some (JStr (c :: s))) ->
  backendStatus (checkSystemStatus_resume (Ok res) w).2 = Some (JStr online_text) /\
  ragStatus (checkSystemStatus_resume (Ok res) w).2
    = Some (JStr (js "RAG not configured")) /\
  modelStatus (checkSystemStatus_resume (Ok res) w).2
    = Some (match own_prop fields (js "model") with
            | Some (JStr (c :: s)) => JStr (c :: s)
            | _ => JStr (js "Unknown model")
            end).
Proof.
  intros Hb Hr Hm Hj Hmodel. destruct w; simpl in Hb, Hr, Hm; subst.
  run_all. rewrite Hj. simpl.
  destruct Hmodel as [->|[->|(c & s & ->)]]; done.
Qed.

Lemma probe_shows_model_witness :
  modelStatus
    (checkSystemStatus_resume (reply 200 (JObj [(js "model", JStr (js "llama3"))]))
       fresh).2
  = Some (JStr (js "llama3")).
Proof.
  apply (probe_shows_model fresh
           {| status := 200; json := Ok (JObj [(js "model", JStr (js "llama3"))]);
              blob := Ok [] |}
           [(js "model", JStr (js "llama3"))] (JStr []) (JStr []) (JStr [])
           eq_refl eq_refl eq_refl eq_refl).
  right. right. by exists 108, (js "lama3").
Defined.

(** X15: a successful export hands over exactly one file and nothing
    else, named after the conversation id the state holds when the reply
    arrives; after "new conversation" in between that id is [null]. *)
Theorem export_delivers_one_file w res body :
  ok res = true -> blob res = Ok body ->
  stringifiable (currentConversationId w) = true ->
  exportChat_resume (Ok res) w
    = (Ok tt,
       set_effects (requests w) (alerts w)
         (downloads w ++ [{| file_id := currentConversationId w; file_body := body |}])
         (console w) w) /\
  downloads (exportChat_resume (Ok res) (newConversation w).2).2
    = downloads w ++ [{| file_id := JNull; file_body := body |}].
Proof.
  intros Hok Hb Hs. destruct w; simpl in Hs. run_all.
  rewrite Hok, Hb. simpl. rewrite Hs. cases; done.
Qed.

Lemma export_delivers_one_file_witness :
  downloads
    (exportChat_resume
       (Ok {| status := 200; json := Throw TypeErr; blob := Ok (js "# chat") |})
       (set_currentConversationId (JStr (js "c1")) fresh)).2
  = [{| file_id := JStr (js "c1"); file_body := js "# chat" |}].
Proof.
  destruct (export_delivers_one_file
              (set_currentConversationId (JStr (js "c1")) fresh)
              {| status := 200; json := Throw TypeErr; blob := Ok (js "# chat") |}
              (js "# chat") eq_refl eq_refl eq_refl) as [H _].
  by rewrite H.
Defined.

(** X16: after a successful delete the list is redrawn from what is left:
    the "no documents" text when nothing is left, one item per remaining
    entry otherwise.  When an entry that is left cannot be drawn, the entry
    asked for is removed all the same, the list stays as it was, and the
    user is told of an error deleting the document. *)
Theorem delete_redraws_list w doc_id res view :
  ok res = true -> documentsList w = Some view ->
  (delete doc_id (documents w) = ∅ ->
   documentsList (deleteDocument_resume doc_id (Ok res) w).2 = Some NoDocuments /\
   alerts (deleteDocument_resume doc_id (Ok res) w).2 = alerts w) /\
  (delete doc_id (documents w) <> ∅ ->
   map_Forall (fun _ doc => doc_renders doc = true) (delete doc_id (documents w)) ->
   documentsList (deleteDocument_resume doc_id (Ok res) w).2
     = Some (Listing (delete doc_id (documents w))) /\
   alerts (deleteDocument_resume doc_id (Ok res) w).2 = alerts w) /\
  (~ map_Forall (fun _ doc => doc_renders doc = true) (delete doc_id (documents w)) ->
   documents (deleteDocument_resume doc_id (Ok res) w).2 = delete doc_id (documents w) /\
   documentsList (deleteDocument_resume doc_id (Ok res) w).2 = Some view /\
   alerts (deleteDocument_resume doc_id (Ok res) w).2
     = alerts w ++ [WithCause (js "Error deleting document: ") TypeErr]).
Proof.
  intros Hok Hv. destruct w; simpl in Hv; subst.
  unfold deleteDocument_resume, renderDocuments, alert, await, try_catch, throw,
    lift, get, modify, mbind, mret, M_bind, M_ret.
  simpl. rewrite Hok. simpl.
  split; [|split].
  - intros He. rewrite He. by rewrite bool_decide_eq_true_2.
  - intros Hne Hall.
    by rewrite (bool_decide_eq_false_2 _ Hne), (bool_decide_eq_true_2 _ Hall).
  - intros Hnot.
    assert (delete doc_id documents0 <> ∅) as Hne.
    { intros He. apply Hnot. rewrite He. apply map_Forall_empty. }
    by rewrite (bool_decide_eq_false_2 _ Hne), (bool_decide_eq_false_2 _ Hnot).
Qed.

Lemma delete_redraws_list_witness :
  let w := set_documents
             {[ js "d1" := JObj [(js "filename", JStr (js "a.pdf"))];
                js "d2" := JNull ]} fresh in
  alerts (deleteDocument_resume (js "d1") (reply 204 JNull) w).2
  = [WithCause (js "Error deleting document: ") TypeErr].
Proof.
  intros w.
  destruct (delete_redraws_list w (js "d1")
              {| status := 204; json := Ok JNull; blob := Ok [] |} Untouched
              eq_refl eq_refl) as (_ & _ & H).
  apply H. intros Hall.
  specialize (Hall (js "d2") JNull). simpl in Hall.
  assert (delete (js "d1") (documents w) !! js "d2" = Some JNull) as Hl by by vm_compute.
  specialize (Hall Hl). discriminate.
Defined.

End PageExtra.

(** ** Theme and tabs *)

Module ChromeFacts.

Local Set Warnings "-clear-no-such-hyp".

Lemma theme_class_names : js "dark-mode" <> js "light-mode".
Proof. discriminate. Qed.

(** X17: the theme survives a reload: after [toggleTheme] the stored item
    reads back as the mode now in effect, which is the opposite of the one
    before, so a page load from that storage comes up in it. *)
Theorem toggled_theme_is_persisted t classes toggle :
  isDarkMode (toggleTheme t) = negb (isDarkMode t) /\
  load_isDarkMode (stored_darkMode (toggleTheme t)) = isDarkMode (toggleTheme t) /\
  isDarkMode (load_theme (stored_darkMode (toggleTheme t)) classes toggle)
    = negb (isDarkMode t).
Proof.
  unfold toggleTheme, load_theme, applyTheme, load_isDarkMode.
  destruct t as [[] st cl tg]; simpl; repeat split; reflexivity.
Qed.

(** X18: after [toggleTheme], [body] carries exactly one of the two theme
    classes, the one of the new mode, whatever it carried before; every
    other class is as it was, and the toggle button, when there is one,
    shows the sun in dark mode and the moon in light mode. *)
Theorem toggled_theme_classes t :
  (js "dark-mode" ∈ body_classes (toggleTheme t) <-> isDarkMode t = false) /\
  (js "light-mode" ∈ body_classes (toggleTheme t) <-> isDarkMode t = true) /\
  (forall c, c <> js "dark-mode" -> c <> js "light-mode" ->
             (c ∈ body_classes (toggleTheme t) <-> c ∈ body_classes t)) /\
  themeToggle (toggleTheme t)
    = match themeToggle t with
      | Some _ => Some (if isDarkMode t then MoonIcon else SunIcon)
      | None => None
      end.
Proof.
  pose proof theme_class_names as Hne.
  unfold toggleTheme, applyTheme.
  destruct t as [[] st cl tg]; simpl; (split; [|split; [|split]]);
    try set_solver; by destruct tg.
Qed.

Lemma toggled_theme_classes_witness :
  js "sidebar-open" ∈ body_classes
    (toggleTheme {| isDarkMode := false; stored_darkMode := None;
                    body_classes := {[ js "sidebar-open" ]};
                    themeToggle := None |}).
Proof.
  apply (toggled_theme_classes
           {| isDarkMode := false; stored_darkMode := None;
              body_classes := {[ js "sidebar-open" ]}; themeToggle := None |});
    [discriminate|discriminate|].
  cbn [body_classes]. apply elem_of_singleton. reflexivity.
Defined.

(** X19: once the theme has been toggled, toggling twice more changes
    nothing: mode, stored item, classes of [body] and icon are all back. *)
Theorem toggle_twice_restores t :
  toggleTheme (toggleTheme (toggleTheme t)) = toggleTheme t.
Proof.
  pose proof theme_class_names as Hne.
  unfold toggleTheme, applyTheme.
  generalize dependent (js "dark-mode"). generalize dependent (js "light-mode").
  intros l d Hne.
  destruct t as [[] st cl tg]; simpl; f_equal;
    try (apply set_eq; intros c; destruct (decide (c = d)), (decide (c = l));
         set_solver);
    by destruct tg.
Qed.

(** What the two loops of [switchTab] do to one element. *)
Local Abbreviation relabel name :=
  (fun e : element =>
     (fun e => if is_tab_content e then set_active false e else e)
       (if is_tab_button e then set_active (bool_decide (data_tab e = name)) e else e)).

Lemma switchTab_eq name t :
  switchTab name t
  = {| currentTab := name;
       elements := activate_by_id (tab_id name) (map (relabel name) (elements t)) |}.
Proof. unfold switchTab. by rewrite map_map. Qed.

Lemma switchTab_elements name t :
  elements (switchTab name t)
  = activate_by_id (tab_id name) (map (relabel name) (elements t)).
Proof. by rewrite switchTab_eq. Qed.

Lemma relabel_flags name e :
  el_id (relabel name e) = el_id e /\
  is_tab_button (relabel name e) = is_tab_button e /\
  data_tab (relabel name e) = data_tab e /\
  is_tab_content (relabel name e) = is_tab_content e /\
  (is_tab_content e = true -> active (relabel name e) = false) /\
  (is_tab_content e = false -> is_tab_button e = true ->
   active (relabel name e) = bool_decide (data_tab e = name)).
Proof. destruct e as [i [] d [] a]; simpl; repeat split; done. Qed.

Lemma activate_by_id_panes id els :
  Forall (fun e => is_tab_content e = true -> active e = false) els ->
  Forall (fun e => is_tab_content e = true -> active e = true -> el_id e = Some id)
    (activate_by_id id els) /\
  (length (List.filter (fun e => is_tab_content e && active e)
             (activate_by_id id els)) <= 1)%nat /\
  (Forall (fun e => el_id e <> Some id) els -> activate_by_id id els = els).
Proof.
  induction 1 as [|e els He Hels IH]; simpl.
  - repeat split; [constructor|lia].
  - assert (List.filter (fun e => is_tab_content e && active e) els = []) as Hnone.
    { clear IH. induction Hels as [|x xs Hx _ IHx]; simpl; [done|].
      destruct (is_tab_content x) eqn:Hc; simpl; [|done]. by rewrite (Hx eq_refl). }
    case_bool_decide as Hid.
    + split; [|split].
      * constructor; [done|].
        eapply Forall_impl; [exact Hels|]. simpl. intros x Hx Hc Ha.
        rewrite (Hx Hc) in Ha. discriminate.
      * simpl. rewrite Hnone. destruct (is_tab_content e && true); simpl; lia.
      * intros Hno. apply Forall_cons_1 in Hno as [Hno _]. done.
    + destruct IH as (IH1 & IH2 & IH3). split; [|split].
      * constructor; [|done]. intros Hc Ha. rewrite (He Hc) in Ha. discriminate.
      * simpl. destruct (is_tab_content e) eqn:Hc; simpl; [|done].
        by rewrite (He eq_refl).
      * intros Hno. apply Forall_cons_1 in Hno as [_ Hno]. by rewrite IH3.
Qed.

(** X20: after [switchTab] at most one tab content is active, and an
    active tab content is the element whose id is the tab name followed by
    [Tab]; when the page has no element of that id, no tab content is
    active at all. *)
Theorem switchTab_shows_one_pane name t :
  currentTab (switchTab name t) = name /\
  Forall (fun e => is_tab_content e = true -> active e = true ->
                   el_id e = Some (tab_id name))
    (elements (switchTab name t)) /\
  (length (List.filter (fun e => is_tab_content e && active e)
             (elements (switchTab name t))) <= 1)%nat /\
  (Forall (fun e => el_id e <> Some (tab_id name)) (elements t) ->
   Forall (fun e => is_tab_content e = true -> active e = false)
     (elements (switchTab name t))).
Proof.
  split; [done|]. rewrite switchTab_elements.
  assert (Forall (fun e => is_tab_content e = true -> active e = false)
            (map (relabel name) (elements t))) as Hclear.
  { apply Forall_map, Forall_forall. intros e _.
    destruct (relabel_flags name e) as (_ & _ & _ & Hc & Ha & _).
    intros Hc'. apply Ha. by rewrite <- Hc. }
  destruct (activate_by_id_panes (tab_id name) _ Hclear) as (H1 & H2 & H3).
  split; [done|]. split; [done|].
  intros Hno. rewrite H3; [done|].
  apply Forall_map. eapply Forall_impl; [exact Hno|]. simpl. intros e He.
  by destruct (relabel_flags name e) as (-> & _).
Qed.

Lemma relabel_twice name e : relabel name (relabel name e) = relabel name e.
Proof. by destruct e as [i [] d [] a]. Qed.

Lemma relabel_activated name e :
  set_active true (relabel name (set_active true (relabel name e)))
  = set_active true (relabel name e).
Proof. by destruct e as [i [] d [] a]. Qed.

Lemma activate_map_twice (g : element -> element) id :
  (forall e, el_id (g e) = el_id e) ->
  (forall e, g (g e) = g e) ->
  (forall e, set_active true (g (set_active true (g e))) = set_active true (g e)) ->
  forall els,
    activate_by_id id (map g (activate_by_id id (map g els)))
    = activate_by_id id (map g els).
Proof.
  intros Hid Hgg Hact els. induction els as [|e els IH]; [done|].
  cbn [map activate_by_id]. rewrite Hid.
  case_bool_decide as H1.
  - cbn [map activate_by_id]. rewrite Hid. cbn [el_id set_active]. rewrite Hid.
    rewrite bool_decide_eq_true_2 by done.
    f_equal; [apply Hact|].
    rewrite map_map. apply map_ext. intros x. apply Hgg.
  - cbn [map activate_by_id]. rewrite !Hid.
    rewrite bool_decide_eq_false_2 by done.
    f_equal; [apply Hgg|apply IH].
Qed.

Lemma switchTab_shows_one_pane_witness :
  let pane i a := {| el_id := Some i; is_tab_button := false; data_tab := None;
                     is_tab_content := true; active := a |} in
  Forall (fun e => is_tab_content e = true -> active e = false)
    (elements (switchTab (Some (js "quiz"))
                 {| currentTab := Some (js "chat");
                    elements := [pane (js "chatTab") true; pane (js "documentsTab") false] |})).
Proof.
  intros pane.
  apply (switchTab_shows_one_pane (Some (js "quiz"))).
  repeat constructor; discriminate.
Defined.

(** X21: choosing the tab that is already chosen changes nothing. *)
Theorem switchTab_again name t :
  switchTab name (switchTab name t) = switchTab name t.
Proof.
  rewrite !switchTab_eq. cbn [elements]. f_equal.
  apply activate_map_twice.
  - intros e. by destruct (relabel_flags name e) as (-> & _).
  - apply relabel_twice.
  - apply relabel_activated.
Qed.

Lemma activate_by_id_elements id els e :
  e ∈ activate_by_id id els -> el_id e <> Some id -> e ∈ els.
Proof.
  induction els as [|x els IH]; simpl; [done|].
  case_bool_decide as Hx.
  - intros [->|He]%elem_of_cons Hid; [by destruct x|]. by apply elem_of_cons; right.
  - intros [->|He]%elem_of_cons Hid; apply elem_of_cons; [by left|right; auto].
Qed.

(** X22: after [switchTab] the highlighted tab buttons are those of the
    chosen tab: a tab button (that is not also a tab content and is not the
    element with the id of the pane) is active exactly when its [data-tab]
    is the tab name. *)
Theorem switchTab_highlights_buttons name t e :
  e ∈ elements (switchTab name t) ->
  is_tab_button e = true -> is_tab_content e = false ->
  el_id e <> Some (tab_id name) ->
  active e = bool_decide (data_tab e = name).
Proof.
  rewrite switchTab_elements. intros He Hb Hc Hid.
  apply activate_by_id_elements in He; [|done].
  apply list_elem_of_fmap in He as (e0 & -> & _).
  destruct (relabel_flags name e0) as (_ & Hb0 & Hd0 & Hc0 & _ & Ha).
  rewrite Hd0. apply Ha; congruence.
Qed.

Lemma switchTab_highlights_buttons_witness :
  let chat := {| el_id := None; is_tab_button := true; data_tab := Some (js "chat");
                 is_tab_content := false; active := true |} in
  let docs := {| el_id := None; is_tab_button := true; data_tab := Some (js "documents");
                 is_tab_content := false; active := false |} in
  active (set_active true docs) = bool_decide (data_tab docs = Some (js "documents")).
Proof.
  intros chat docs.
  apply (switchTab_highlights_buttons (Some (js "documents"))
           {| currentTab := Some (js "chat"); elements := [chat; docs] |}
           (set_active true docs)); [|done|done|done].
  apply elem_of_cons. right. apply elem_of_cons. by left.
Defined.

End ChromeFacts.

(** ** The documents tab and the startup *)

Module DocsTabFacts.
Import SessionFacts SessionExtra.

Lemma jsval_nested_ind (P : jsval -> Prop) :
  P JUndefined -> P JNull -> (forall b, P (JBool b)) -> (forall n, P (JNum n)) ->
  (forall s, P (JStr s)) ->
  (forall items, Forall P items -> P (JArr items)) ->
  (forall fields, P (JObj fields)) ->
  forall v, P v.
Proof.
  intros Hu Hn Hb Hz Hs Ha Ho. fix IH 1.
  intros [| |b|n|s|items|fields];
    [exact Hu|exact Hn|apply Hb|apply Hz|apply Hs| |apply Ho].
  apply Ha. induction items as [|x items IHitems]; constructor; [apply IH|done].
Qed.

Lemma join_items_ok conv l :
  (exists s, join_items conv l = Ok s)
  <-> Forall (fun e => exists s, item_text conv e = Ok s) l.
Proof.
  induction l as [|e l IH]; simpl.
  - split; [constructor|eauto].
  - split.
    + intros [s Hs]. destruct (item_text conv e) as [s1|x] eqn:E; [|discriminate].
      constructor; [eauto|]. apply IH.
      destruct l; [simpl; eauto|].
      destruct (join_items conv (j :: l)); [eauto|discriminate].
    + intros [[s1 ->] [s2 H2]%IH]%Forall_cons_1.
      destruct l; [eauto|]. rewrite H2. eauto.
Qed.

(** The two renderings of ToString agree: the conversion yields a string
    exactly for the values [stringifiable] accepts. *)
Lemma to_string_stringifiable number_text v :
  (exists s, to_string number_text v = Ok s) <-> stringifiable v = true.
Proof.
  induction v as [| |b|n|s|items IH|fields] using jsval_nested_ind;
    try (simpl; split; eauto; fail).
  - cbn [to_string stringifiable]. rewrite join_items_ok, forallb_forall.
    rewrite Forall_forall in IH. rewrite Forall_forall. split.
    + intros H e He%list_elem_of_In. apply IH; [done|].
      destruct (H e He) as [s Hs]. destruct e; simpl in *; eauto.
    + intros H e He. pose proof (H e (proj1 (list_elem_of_In _ _) He)) as Hs.
      apply IH in Hs as [s Hs]; [|done]. destruct e; simpl in *; eauto.
  - simpl. destruct (existsb _ fields); simpl; split; eauto; try discriminate.
    by intros [? ?].
Qed.

Ltac run_W :=
  unfold startup_begin, startup_resume, initPIN, loadDocuments,
    explainDocument_begin, explainDocument_resume, show_explanation,
    handleDocumentUpload_begin, handleDocumentUpload_resume,
    handleDocumentUpload_catch, assign_document, say_upload, on_inner,
    try_catchW, throwW, liftW, getW, modifyW, mbind, mret, W_bind, W_ret;
  run_all.

(** X23: an upload that fails (the promise rejects, the status is not 2xx,
    or the body does not parse) leaves the registry and the list as they
    were, schedules nothing, does not throw, and, when the page has the
    status line, ends with the failure text on it. *)
Theorem failed_upload_changes_nothing number_text o s :
  request_failed o \/ (exists res e, o = Ok res /\ json res = Throw e) ->
  (handleDocumentUpload_resume number_text o s).1 = Ok tt /\
  documents (inner (handleDocumentUpload_resume number_text o s).2)
    = documents (inner s) /\
  documentsList (inner (handleDocumentUpload_resume number_text o s).2)
    = documentsList (inner s) /\
  timers (side (handleDocumentUpload_resume number_text o s).2) = timers (side s) /\
  uploadStatus (side (handleDocumentUpload_resume number_text o s).2)
    = match uploadStatus (side s) with
      | Some _ => Some (JStr upload_failed_text)
      | None => None
      end.
Proof.
  intros H. destruct s as [w th tb sd pn cl]. destruct w, sd.
  destruct H as [H|(res & e & -> & H)].
  - destruct o as [res|e]; simpl in H; run_W; rewrite ?H; cases; done.
  - run_W. rewrite H. cases; done.
Qed.

Lemma failed_upload_changes_nothing_witness :
  uploadStatus (side (handleDocumentUpload_resume (fun _ => []) unreachable fresh_whole).2)
  = Some (JStr upload_failed_text).
Proof.
  apply (failed_upload_changes_nothing (fun _ => []) unreachable fresh_whole). by left.
Defined.

(** A reply body that names the document with a string other than
    [__proto__]. *)
Lemma upload_registers number_text res fields id s :
  ok res = true -> json res = Ok (JObj fields) ->
  own_prop fields (js "doc_id") = Some (JStr id) -> id <> js "__proto__" ->
  documents (inner (handleDocumentUpload_resume number_text (Ok res) s).2)
  = <[id := default JUndefined (own_prop fields (js "metadata"))]> (documents (inner s)).
Proof.
  intros Hok Hj Hid Hne. destruct s as [w th tb sd pn cl]. destruct w, sd.
  run_W. rewrite Hok, Hj. simpl. rewrite Hid. simpl.
  rewrite (bool_decide_eq_false_2 _ Hne). cases; done.
Qed.

(** X24: a 2xx upload reply that names the document with a string (other
    than [__proto__]) puts that id into the registry with the reply's
    metadata; when the list can be drawn it shows the new registry, the
    status line says the upload succeeded, and one timer is set to clear
    it. *)
Theorem upload_registers_and_lists number_text res fields id s view st :
  ok res = true -> json res = Ok (JObj fields) ->
  own_prop fields (js "doc_id") = Some (JStr id) -> id <> js "__proto__" ->
  documentsList (inner s) = Some view -> uploadStatus (side s) = Some st ->
  map_Forall (fun _ doc => doc_renders doc = true)
    (<[id := default JUndefined (own_prop fields (js "metadata"))]> (documents (inner s))) ->
  (handleDocumentUpload_resume number_text (Ok res) s).1 = Ok tt /\
  documents (inner (handleDocumentUpload_resume number_text (Ok res) s).2) !! id
    = Some (default JUndefined (own_prop fields (js "metadata"))) /\
  (forall other, other <> id ->
     documents (inner (handleDocumentUpload_resume number_text (Ok res) s).2) !! other
     = documents (inner s) !! other) /\
  documentsList (inner (handleDocumentUpload_resume number_text (Ok res) s).2)
    = Some (Listing (<[id := default JUndefined (own_prop fields (js "metadata"))]>
                       (documents (inner s)))) /\
  uploadStatus (side (handleDocumentUpload_resume number_text (Ok res) s).2)
    = Some (JStr uploaded_text) /\
  timers (side (handleDocumentUpload_resume number_text (Ok res) s).2)
    = S (timers (side s)).
Proof.
  intros Hok Hj Hid Hne Hv Hst Hall.
  pose proof (upload_registers number_text res fields id s Hok Hj Hid Hne) as Hreg.
  split; [|split; [|split]].
  2: { rewrite Hreg. apply lookup_insert_eq. }
  2: { intros other Ho. rewrite Hreg. by apply lookup_insert_ne. }
  all: clear Hreg; destruct s as [w th tb sd pn cl]; destruct w, sd;
    simpl in Hv, Hst, Hall; subst; run_W; rewrite Hok, Hj; simpl; rewrite Hid; simpl;
    rewrite (bool_decide_eq_false_2 _ Hne); simpl;
    rewrite (bool_decide_eq_false_2 _ (insert_non_empty _ _ _)),
      (bool_decide_eq_true_2 _ Hall); done.
Qed.

Lemma upload_registers_and_lists_witness :
  documents
    (inner (handleDocumentUpload_resume (fun _ => [])
              (reply 200 (upload_reply (js "d1")
                            (JObj [(js "filename", JStr (js "report.pdf"))])))
              fresh_whole).2) !! js "d1"
  = Some (JObj [(js "filename", JStr (js "report.pdf"))]).
Proof.
  apply (upload_registers_and_lists (fun _ => [])
           {| status := 200;
              json := Ok (upload_reply (js "d1")
                            (JObj [(js "filename", JStr (js "report.pdf"))]));
              blob := Ok [] |}
           [(js "doc_id", JStr (js "d1"));
            (js "metadata", JObj [(js "filename", JStr (js "report.pdf"))])]
           (js "d1") fresh_whole Untouched (JStr []));
    try reflexivity; try discriminate.
  apply map_Forall_insert_2; [reflexivity|apply map_Forall_empty].
Defined.

(** X25: a 2xx upload reply without [metadata] still puts the id into the
    registry, with nothing as its metadata; the list cannot be drawn from
    that, so the upload is reported as failed, the list stays as it was,
    no timer is set and the error goes to the console. *)
Theorem upload_without_metadata number_text res fields id s view st :
  ok res = true -> json res = Ok (JObj fields) ->
  own_prop fields (js "doc_id") = Some (JStr id) -> id <> js "__proto__" ->
  own_prop fields (js "metadata") = None ->
  documentsList (inner s) = Some view -> uploadStatus (side s) = Some st ->
  (handleDocumentUpload_resume number_text (Ok res) s).1 = Ok tt /\
  documents (inner (handleDocumentUpload_resume number_text (Ok res) s).2) !! id
    = Some JUndefined /\
  documentsList (inner (handleDocumentUpload_resume number_text (Ok res) s).2)
    = Some view /\
  uploadStatus (side (handleDocumentUpload_resume number_text (Ok res) s).2)
    = Some (JStr upload_failed_text) /\
  timers (side (handleDocumentUpload_resume number_text (Ok res) s).2)
    = timers (side s) /\
  console (inner (handleDocumentUpload_resume number_text (Ok res) s).2)
    = console (inner s) ++ [(js "Upload error:", TypeErr)].
Proof.
  intros Hok Hj Hid Hne Hmeta Hv Hst.
  assert (~ map_Forall (fun _ doc => doc_renders doc = true)
            (<[id := JUndefined]> (documents (inner s)))) as Hnot.
  { intros Hall. specialize (Hall id JUndefined (lookup_insert_eq _ _ _)).
    discriminate. }
  destruct s as [w th tb sd pn cl]; destruct w, sd;
    simpl in Hv, Hst, Hnot; subst; run_W; rewrite Hok, Hj; simpl;
    rewrite Hid, Hmeta; simpl;
    rewrite (bool_decide_eq_false_2 _ Hne); simpl;
    rewrite (bool_decide_eq_false_2 _ (insert_non_empty _ _ _)),
      (bool_decide_eq_false_2 _ Hnot); simpl.
  repeat split; try done. apply lookup_insert_eq.
Qed.

Lemma upload_without_metadata_witness :
  uploadStatus
    (side (handleDocumentUpload_resume (fun _ => [])
             (reply 200 (JObj [(js "doc_id", JStr (js "d1"))])) fresh_whole).2)
  = Some (JStr upload_failed_text).
Proof.
  apply (upload_without_metadata (fun _ => [])
           {| status := 200; json := Ok (JObj [(js "doc_id", JStr (js "d1"))]);
              blob := Ok [] |}
           [(js "doc_id", JStr (js "d1"))] (js "d1") fresh_whole Untouched (JStr []));
    try reflexivity; discriminate.
Defined.

(** X26: uploading a document under an id that was free and then deleting
    it gives back the registry as it was. *)
Theorem upload_then_delete number_text res fields id s res' :
  ok res = true -> json res = Ok (JObj fields) ->
  own_prop fields (js "doc_id") = Some (JStr id) -> id <> js "__proto__" ->
  documents (inner s) !! id = None ->
  ok res' = true ->
  documents
    (deleteDocument_resume id (Ok res')
       (inner (handleDocumentUpload_resume number_text (Ok res) s).2)).2
  = documents (inner s).
Proof.
  intros Hok Hj Hid Hne Hfree Hok'.
  destruct (DocumentFacts.deleteDocument_resume_ok id res'
              (inner (handleDocumentUpload_resume number_text (Ok res) s).2) Hok')
    as [_ ->].
  rewrite (upload_registers number_text res fields id s Hok Hj Hid Hne).
  by apply delete_insert_id.
Qed.

Lemma upload_then_delete_witness :
  documents
    (deleteDocument_resume (js "d1") (reply 204 JNull)
       (inner (handleDocumentUpload_resume (fun _ => [])
                 (reply 200 (upload_reply (js "d1") JNull)) fresh_whole).2)).2
  = ∅.
Proof.
  apply (upload_then_delete (fun _ => [])
           {| status := 200; json := Ok (upload_reply (js "d1") JNull); blob := Ok [] |}
           [(js "doc_id", JStr (js "d1")); (js "metadata", JNull)] (js "d1")
           fresh_whole {| status := 204; json := Ok JNull; blob := Ok [] |});
    try reflexivity; discriminate.
Defined.

(** X27: explaining a document only reads.  Without the output element
    nothing is asked; with it, one request goes out under "Generating
    explanation...", and whatever that request comes to, the output ends
    with an explanation or with the failure text, nothing is thrown, and
    the registry, the conversation and its id are as before. *)
Theorem explain_only_reads doc_id o s :
  (documentExplanationOutput (side s) = None ->
   explainDocument_begin doc_id s = (Ok Done, s)) /\
  (forall v,
      documentExplanationOutput (side s) = Some v ->
      (explainDocument_begin doc_id s).1 = Ok Awaiting /\
      doc_requests (side (explainDocument_begin doc_id s).2)
        = doc_requests (side s) ++ [GetExplain doc_id] /\
      documentExplanationOutput (side (explainDocument_begin doc_id s).2)
        = Some Generating /\
      (explainDocument_resume o s).1 = Ok tt /\
      documents (inner (explainDocument_resume o s).2) = documents (inner s) /\
      messagesContainer (inner (explainDocument_resume o s).2)
        = messagesContainer (inner s) /\
      currentConversationId (inner (explainDocument_resume o s).2)
        = currentConversationId (inner s) /\
      requests (inner (explainDocument_resume o s).2) = requests (inner s) /\
      ((exists f x, documentExplanationOutput (side (explainDocument_resume o s).2)
                    = Some (Explained f x)) \/
       (exists e, documentExplanationOutput (side (explainDocument_resume o s).2)
                  = Some (ExplainFailed e)))).
Proof.
  destruct s as [w th tb sd pn cl]. destruct w, sd. split.
  - simpl. intros ->. reflexivity.
  - simpl. intros v ->. run_W. cases; repeat split; eauto.
Qed.

Lemma explain_only_reads_witness :
  documents (inner (explainDocument_resume unreachable fresh_whole).2) = ∅.
Proof.
  destruct (explain_only_reads (js "d1") unreachable fresh_whole) as [_ H].
  destruct (H NothingYet eq_refl) as (_ & _ & _ & _ & Hd & _). exact Hd.
Defined.

(** X28: what the explanation output shows: for a 2xx reply with an object
    body whose [filename] and [explanation] are strings, those two; for a
    non-2xx reply with an object body, the body's [detail] when it is a
    non-empty string and ["Explanation failed"] when there is none. *)
Theorem explain_shows res fields s v :
  documentExplanationOutput (side s) = Some v -> json res = Ok (JObj fields) ->
  (forall f x,
      ok res = true ->
      own_prop fields (js "filename") = Some (JStr f) ->
      own_prop fields (js "explanation") = Some (JStr x) ->
      documentExplanationOutput (side (explainDocument_resume (Ok res) s).2)
        = Some (Explained (JStr f) (JStr x))) /\
  (forall c d,
      ok res = false ->
      own_prop fields (js "detail") = Some (JStr (c :: d)) ->
      documentExplanationOutput (side (explainDocument_resume (Ok res) s).2)
        = Some (ExplainFailed (JsError (JStr (c :: d))))) /\
  (ok res = false ->
   own_prop fields (js "detail") = None ->
   documentExplanationOutput (side (explainDocument_resume (Ok res) s).2)
     = Some (ExplainFailed (JsError (JStr (js "Explanation failed"))))).
Proof.
  intros Hv Hj. destruct s as [w th tb sd pn cl]. destruct w, sd.
  simpl in Hv. subst. split; [|split].
  - intros f x Hok Hf Hx.
    assert (renders (JStr x) = true) as Hr by by destruct x.
    run_W. rewrite Hok, Hj. simpl. rewrite Hf, Hx. simpl. rewrite Hr. done.
  - intros c d Hok Hd. run_W. rewrite Hok, Hj. simpl. rewrite Hd. cases; done.
  - intros Hok Hd. run_W. rewrite Hok, Hj. simpl. rewrite Hd. cases; done.
Qed.

Lemma explain_shows_witness :
  documentExplanationOutput
    (side (explainDocument_resume
             (reply 404 (JObj [(js "detail", JStr (js "Document not found"))]))
             fresh_whole).2)
  = Some (ExplainFailed (JsError (JStr (js "Document not found")))).
Proof.
  destruct (explain_shows
              {| status := 404;
                 json := Ok (JObj [(js "detail", JStr (js "Document not found"))]);
                 blob := Ok [] |}
              [(js "detail", JStr (js "Document not found"))] fresh_whole NothingYet
              eq_refl eq_refl) as (_ & H & _).
  apply (H 68 (js "ocument not found")); reflexivity.
Defined.

Lemma checkSystemStatus_resume_returns o w :
  (checkSystemStatus_resume o w).1 = Ok tt /\
  requests (checkSystemStatus_resume o w).2 = requests w.
Proof. by destruct (checkSystemStatus_resume_frame o w) as (? & _ & _ & ?). Qed.

(** X29: the startup asks the backend one thing, the status probe, and
    whatever the probe comes to and whatever happened while it was out,
    the startup ends without throwing, with an empty registry, no
    conversation id, an empty conversation and the user let in; it issues
    no further request. *)
Theorem startup_ends_clean o s s' :
  (startup_begin s).1 = Ok Awaiting /\
  requests (inner (startup_begin s).2) = requests (inner s) ++ [GetRoot] /\
  (startup_resume o s').1 = Ok tt /\
  documents (inner (startup_resume o s').2) = ∅ /\
  currentConversationId (inner (startup_resume o s').2) = JNull /\
  messages (inner (startup_resume o s').2) = [] /\
  isAuthenticated (pin (startup_resume o s').2) = true /\
  requests (inner (startup_resume o s').2) = requests (inner s') /\
  doc_requests (side (startup_resume o s').2) = doc_requests (side s').
Proof.
  split; [done|]. split; [done|].
  destruct s' as [w th tb sd pn cl]. simpl.
  destruct (checkSystemStatus_resume_returns o w) as [Hr Hq].
  unfold startup_resume, initPIN, loadDocuments, on_inner, modifyW, mbind, W_bind.
  simpl. destruct (checkSystemStatus_resume o w) as [r w1]. simpl in Hr, Hq.
  subst r. simpl.
  unfold loadDocuments_inner, modify, newConversation, modify, get, mbind, M_bind.
  simpl.
  unfold messages.
  destruct w1, sd; simpl in *. cases; repeat split; done.
Qed.

Lemma resume_returns t o w : (resume t o w).1 = Ok tt.
Proof.
  destruct t; [|by destruct (resume_startup o w) as (? & _)|..];
    destruct w; run_all; cases; done.
Qed.

(** The two accounts of the startup agree: what [startup_resume] does to
    the chat side of the page is what the page model runs when the
    startup's request settles. *)
Lemma startup_resume_inner o s :
  inner (startup_resume o s).2 = (resume ParkedStartup o (inner s)).2.
Proof.
  destruct s as [w th tb sd pn cl].
  destruct (checkSystemStatus_resume_frame o w) as (Hr & _).
  unfold startup_resume, resume, initPIN, loadDocuments, on_inner, modifyW,
    mbind, W_bind, M_bind. simpl.
  destruct (checkSystemStatus_resume o w) as [r w1]. simpl in Hr. subst r. simpl.
  unfold loadDocuments_inner, newConversation, modify, get, mbind, M_bind. simpl.
  destruct w1; simpl. cases; done.
Qed.

Lemma handleDocumentUpload_resume_returns number_text o s :
  (handleDocumentUpload_resume number_text o s).1 = Ok tt.
Proof.
  destruct s as [w th tb sd pn cl]. destruct w, sd. run_W. cases; done.
Qed.

Lemma explainDocument_resume_returns o s : (explainDocument_resume o s).1 = Ok tt.
Proof.
  destruct s as [w th tb sd pn cl]. destruct w, sd. run_W. cases; done.
Qed.

(** X30: no function of the page lets an error escape once its request
    has settled: the chat send, the status probe with the rest of the
    startup behind it, the delete, the export, the upload and the
    explanation all return normally, whatever the request came to and
    whatever the page looks like by then. *)
Theorem no_error_escapes :
  (forall t o w, (resume t o w).1 = Ok tt) /\
  (forall number_text o s, (handleDocumentUpload_resume number_text o s).1 = Ok tt) /\
  (forall o s, (explainDocument_resume o s).1 = Ok tt).
Proof.
  split; [exact resume_returns|].
  split; [exact handleDocumentUpload_resume_returns|exact explainDocument_resume_returns].
Qed.

End DocsTabFacts.
